(** * Replay checking of hijacked history vehicles

    A shallow embedding of
    [examples/history_vehicles_replacement_for_imitation_learning.py]:
    the [ReplayCheckerAgent] class and the selection, set-up and
    simulation loop of [main].

    Numbers.  The quantities that [act] compares and returns (heading,
    speed, position, acceleration, angular velocity) are IEEE binary64
    numbers, the kernel's primitive floats, so that the tolerance checks
    compute what [math.isclose] computes on Python floats.  Times are
    exact rationals in canonical form ([Qc]), so that the keys of the
    recorded series compare with Leibniz equality; the rounding of the
    clock arithmetic is outside this model.

    Effects.  Statements that raise, log a warning, or call into the
    simulator run in the monad [Py]: a trace of the events performed so
    far together with either the exception raised or the value returned.
    Logging at the info and debug levels and the Envision client leave no
    event.

    Containers.  Dictionaries are finite maps and sets are finite sets;
    where the script iterates over a set the order is the collaborator
    [set_iter], and the keys of a dictionary are enumerated in the order
    of the finite map. *)

From Stdlib Require Import QArith Qcanon Qcabs Floats.
From stdpp Require Import base numbers gmap strings list pretty.

Local Open Scope Qc_scope.
Local Open Scope list_scope.

(* decimal literals denote the nearest binary64 number, as in Python *)
Set Warnings "-inexact-float".

(** ** Numeric literals of the script *)

Definition dec (n : Z) (d : positive) : Qc := Q2Qc (n # d).

Definition Qc3 : Qc := dec 3 1.
Definition Qc4 : Qc := dec 4 1.
Definition tenth : Qc := dec 1 10.

(** ** The run-time: exceptions, events and the [Py] monad *)

Inductive assertion :=
  | AssertReplace         (* line 98: assert vehicles_to_replace > 0 *)
  | AssertEpisodes        (* line 99: assert episodes > 0 *)
  | AssertData            (* line 55: assert self._data *)
  | AssertHeading         (* line 65 *)
  | AssertSpeed           (* line 71 *)
  | AssertPosX            (* line 74 *)
  | AssertPosY            (* line 77 *)
  | AssertWaymoK          (* line 191: assert k == 1 *)
  | AssertElapsed.        (* line 246 *)

Inductive warning :=
  | WarnNoVehicles                                   (* line 139 *)
  | WarnTooFewMissions (requested available : nat)   (* line 161 *)
  | WarnNoMissions                                   (* line 154 *)
  | WarnNoWaymoEgo                                   (* line 197 *)
  | WarnAgentExited (agent_id : string).             (* line 264 *)

Inductive exn :=
  | AssertionError (a : assertion)
  | KeyError (key : string)
  | ValueError
  | TypeError
  | FileNotFoundError (path : string)
  | EOFError
  | UnpicklingError.

Inductive event :=
  | EvAssert (a : assertion)
  | EvWarning (w : warning)
  | EvRandomSample (population : list string) (k : nat)
  | EvSetMaxEpisodeSteps (cap : Qc)
  | EvBuildAgent (agent_id : string)
  | EvSetEgoMissions (agent_ids : list string)
  | EvSwitchEgoAgents (agent_ids : list string)
  | EvReset (start : Qc)
  | EvStep (acting : list string).

Definition Py (A : Type) : Type := list event * (exn + A).

Definition ret {A} (a : A) : Py A := ([], inr a).

Definition bind {A B} (m : Py A) (f : A -> Py B) : Py B :=
  match m with
  | (tr, inl e) => (tr, inl e)
  | (tr, inr a) => let '(tr', r) := f a in (tr ++ tr', r)
  end.

Definition raise {A} (e : exn) : Py A := ([], inl e).
Definition emit (ev : event) : Py unit := ([ev], inr tt).

(** [assert b]: the check is recorded in the trace, and raises when [b]
    is false. *)
Definition py_assert (a : assertion) (b : bool) : Py unit :=
  ([EvAssert a], if b then inr tt else inl (AssertionError a)).

Definition trace {A} (m : Py A) : list event := fst m.
Definition outcome {A} (m : Py A) : exn + A := snd m.

Declare Scope py_scope.
Delimit Scope py_scope with py.
Notation "x <- c1 ;; c2" := (bind c1 (fun x => c2))
  (at level 100, c1 at next level, right associativity) : py_scope.
Notation "c1 ;;; c2" := (bind c1 (fun _ => c2))
  (at level 100, right associativity) : py_scope.

(** [for x in xs: acc = body(acc, x)], stopping at the first exception. *)
Fixpoint for_each {A S} (xs : list A) (acc : S) (body : S -> A -> Py S) : Py S :=
  match xs with
  | [] => ret acc
  | x :: xs' => bind (body acc x) (fun acc' => for_each xs' acc' body)
  end.

(** ** [math.isclose]

    The standard library's test, statement by statement as CPython's
    [math_isclose_impl] has it: equal values are close; an infinite
    value is close to nothing else; otherwise [diff = fabs(b - a)] is
    compared against the relative tolerance scaled by either argument
    and against the absolute tolerance.  The defaults are
    [rel_tol=1e-09] and [abs_tol=0.0]; the script passes no negative
    tolerance, so the ValueError for one does not arise.

    The test is written once, over the arithmetic of the numbers it is
    applied to: [double] for the vehicle state, where every operation is
    the IEEE one, and [exact] for the times. *)

Class Arith (N : Type) := {
  num_eqb : N -> N -> bool;      (* a == b *)
  num_isinf : N -> bool;         (* isinf(a) *)
  num_sub : N -> N -> N;
  num_mul : N -> N -> N;
  num_fabs : N -> N;
  num_leb : N -> N -> bool;      (* a <= b *)
  rel_tol_default : N;
  abs_tol_default : N }.

Definition isinf (x : float) : bool :=
  PrimFloat.eqb x infinity || PrimFloat.eqb x neg_infinity.

#[global] Instance double : Arith float := {|
  num_eqb := PrimFloat.eqb;
  num_isinf := isinf;
  num_sub := PrimFloat.sub;
  num_mul := PrimFloat.mul;
  num_fabs := PrimFloat.abs;
  num_leb := PrimFloat.leb;
  rel_tol_default := 1e-09%float;
  abs_tol_default := 0%float |}.

#[global] Instance exact : Arith Qc := {|
  num_eqb := fun a b => bool_decide (a = b);
  num_isinf := fun _ => false;
  num_sub := Qcminus;
  num_mul := Qcmult;
  num_fabs := Qcabs;
  num_leb := fun a b => bool_decide (a ≤ b);
  rel_tol_default := dec 1 1000000000;
  abs_tol_default := 0 |}.

Definition math_isclose {N} `{Arith N} (a b : N) (rel_tol abs_tol : N) : bool :=
  if num_eqb a b then true
  else if num_isinf a || num_isinf b then false
  else
    let diff := num_fabs (num_sub b a) in
    num_leb diff (num_fabs (num_mul rel_tol b))
    || num_leb diff (num_fabs (num_mul rel_tol a))
    || num_leb diff abs_tol.

(** ** Observations and recorded data *)

Module EgoVehicleState.
Record t := mk { heading : float; speed : float; position : float * float }.
End EgoVehicleState.

Module Events.
Record t := mk { reached_goal : bool }.
End Events.

Module Observation.
Record t := mk {
  elapsed_sim_time : Qc;
  ego_vehicle_state : EgoVehicleState.t;
  events : Events.t }.
End Observation.

(** One record of the pickled series: the dictionary with the keys
    "heading", "speed", "ego_pos", "acceleration" and "angular_velocity"
    written by the observation-collection script.  Such a dictionary is
    never empty, hence always truthy. *)
Module Recorded.
Record t := mk {
  heading : float;
  speed : float;
  ego_pos : float * float;
  acceleration : float;
  angular_velocity : float }.
End Recorded.

Abbreviation series := (gmap Qc Recorded.t).

(** ** Collaborators that live outside this file

    [rounder_for_dt] comes from [smarts.core.utils.math]; [pickle_load]
    stands for lines 51-52, [open(path, "rb")] followed by
    [pickle.load], and gives either the exception that one of the two
    raised (FileNotFoundError for a missing file, EOFError or
    UnpicklingError for a truncated or corrupt one) or the series read;
    [set_iter] is the order in which Python iterates over a set of
    strings, which the language leaves unspecified.  The simulator
    ([SMARTS]) is a state machine of which the script uses the tick
    length, the clock, [switch_ego_agents], [reset] and [step]. *)

Abbreviation action := (float * float)%type.

Class Collaborators := {
  rounder_for_dt : Qc -> Qc -> Qc;
  pickle_load : string -> exn + series;
  set_iter : gset string -> list string;
  set_iter_perm : forall s, set_iter s ≡ₚ elements s;
  SMARTS : Type;
  fixed_timestep_sec : SMARTS -> Qc;
  elapsed_sim_time : SMARTS -> Qc;
  switch_ego_agents : SMARTS -> list string -> Qc -> SMARTS;
  reset : SMARTS -> Qc -> SMARTS * gmap string Observation.t;
  step : SMARTS -> gmap string action ->
         SMARTS * (gmap string Observation.t * gmap string bool) }.

(** ** [class ReplayCheckerAgent] *)

Module ReplayCheckerAgent.
Section Agent.
Context `{C : Collaborators}.
Local Open Scope py_scope.

Record t := mk {
  _fixed_timestep_sec : Qc;
  _rounder : Qc -> Qc;
  _time_offset : Qc;
  _data : option series;
  _vehicle_id : string }.

Definition __init__ (fixed_timestep_sec : Qc) : t :=
  {| _fixed_timestep_sec := fixed_timestep_sec;
     _rounder := rounder_for_dt fixed_timestep_sec;
     _time_offset := 0;
     _data := None;
     _vehicle_id := EmptyString |}.

Definition datafile (scenario_name history_name vehicle_id : string) : string :=
  "collected_observations/" +:+ scenario_name +:+ "_" +:+ history_name
    +:+ "_Agent-history-vehicle-" +:+ vehicle_id +:+ ".pkl".

Definition load_data_for_vehicle (self : t) (vehicle_id : string)
    (scenario_name history_name : string) (time_offset : Qc) : Py t :=
  let path := datafile scenario_name history_name vehicle_id in
  match pickle_load path with
  | inl e => raise e
  | inr d =>
      ret {| _fixed_timestep_sec := _fixed_timestep_sec self;
             _rounder := _rounder self;
             _time_offset := time_offset;
             _data := Some d;
             _vehicle_id := vehicle_id |}
  end.

(** Truth value of [self._data]: [None] and the empty dictionary are
    falsy. *)
Definition data_truthy (d : option series) : bool :=
  match d with
  | None => false
  | Some m => negb (bool_decide (m = ∅))
  end.

Definition neutral : action := (0%float, 0%float).

Definition act (self : t) (obs : Observation.t) : Py action :=
  py_assert AssertData (data_truthy (_data self)) ;;;
  let data := match _data self with Some d => d | None => ∅ end in
  let obs_time :=
    _rounder self (Observation.elapsed_sim_time obs + _time_offset self) in
  match data !! obs_time with
  | None => ret neutral
  | Some exp =>
      let cur_state := Observation.ego_vehicle_state obs in
      py_assert AssertHeading
        (math_isclose (EgoVehicleState.heading cur_state)
           (Recorded.heading exp) rel_tol_default 1e-2%float) ;;;
      py_assert AssertSpeed
        (math_isclose (EgoVehicleState.speed cur_state)
           (Recorded.speed exp) rel_tol_default 0.2%float) ;;;
      py_assert AssertPosX
        (math_isclose (EgoVehicleState.position cur_state).1
           (Recorded.ego_pos exp).1 rel_tol_default 2%float) ;;;
      py_assert AssertPosY
        (math_isclose (EgoVehicleState.position cur_state).2
           (Recorded.ego_pos exp).2 rel_tol_default 2%float) ;;;
      let atime := _rounder self (obs_time + _fixed_timestep_sec self) in
      match data !! atime with
      | None => ret neutral
      | Some d => ret (Recorded.acceleration d, Recorded.angular_velocity d)
      end
  end.
End Agent.
End ReplayCheckerAgent.

(** ** The scenario objects read by [main] *)

Module VehicleWindow.
Record t := mk {
  vehicle_id : string;
  start_time : Qc;
  end_time : Qc;
  average_speed : Qc }.
End VehicleWindow.

Module Mission.
(** [veh_id] is [mission.vehicle_spec.veh_id]. *)
Record t := mk { veh_id : string; start_time : Qc }.
End Mission.

Module TrafficHistory.
Record t := mk {
  name : string;
  dataset_source : string;
  ego_vehicle_id : option Z;
  vehicle_final_exit_time : string -> option Qc;
  last_seen_vehicle_time : option Qc }.
End TrafficHistory.

Module Scenario.
Record t := mk {
  name : string;
  traffic_history : TrafficHistory.t;
  history_missions_for_window :
    Qc -> Qc -> Qc -> (list VehicleWindow.t -> list VehicleWindow.t) ->
    list Mission.t }.
End Scenario.

(** ** [random.sample]

    The standard library's sampling without replacement, in its pool
    form: draw an index below the number of items still in the pool, take
    that item, and move the last live item into the vacancy.  The random
    generator is a stream of raw draws. *)

Definition Rng := nat -> nat.

Definition randbelow (rng : Rng) (n : nat) : nat * Rng :=
  ((rng 0%nat mod n)%nat, fun i => rng (S i)).

Fixpoint sample_from_pool (rng : Rng) (pool : list string) (k : nat)
    : list string * Rng :=
  match k with
  | O => ([], rng)
  | S k' =>
      let n := length pool in
      let '(j, rng') := randbelow rng n in
      match pool !! j, pool !! (n - 1)%nat with
      | Some x, Some y =>
          let '(r, rng'') :=
            sample_from_pool rng' (take (n - 1)%nat (<[j := y]> pool)) k' in
          (x :: r, rng'')
      | _, _ => ([], rng')
      end
  end.

Definition random_sample (rng : Rng) (population : list string) (k : nat)
    : Py (list string * Rng) :=
  if (length population <? k)%nat then raise ValueError
  else ret (sample_from_pool rng population k).

(** ** [main] *)

Section Main.
Context `{C : Collaborators}.
Local Open Scope py_scope.

(** [d[key]] on a dictionary with string keys. *)
Definition getitem {V} (d : gmap string V) (key : string) : Py V :=
  match d !! key with
  | Some v => ret v
  | None => raise (KeyError key)
  end.

(** [max(xs)] and [max(0, x)]: the first maximal item is kept. *)
Definition py_max2 (a b : Qc) : Qc := if decide (a < b) then b else a.

Definition py_max (xs : list Qc) : Py Qc :=
  match xs with
  | [] => raise ValueError
  | x :: xs' => ret (foldl py_max2 x xs')
  end.

(** [all(xs)] over booleans. *)
Definition py_all (xs : list bool) : bool := forallb (fun b => b) xs.

Definition dict_values {V} (d : gmap string V) : list V := (map_to_list d).*2.
Definition dict_keys {V} (d : gmap string V) : list string := (map_to_list d).*1.

(** *** Lines 121-135: the custom filter *)

Definition start_window : Qc := Qc4.

Definition custom_filter (exists_at_or_after : Qc)
    (vehs : list VehicleWindow.t) : list VehicleWindow.t :=
  let vehicles := vehs in
  filter (fun v =>
            Qc3 < VehicleWindow.average_speed v
            ∧ Qcabs (VehicleWindow.start_time v - exists_at_or_after)
              < start_window)
         vehicles.

(** *** Lines 146-166: missions by vehicle id, and the clamped count *)

Definition veh_missions_of (missions : list Mission.t)
    : gmap string Mission.t :=
  foldl (fun d mission => <[Mission.veh_id mission := mission]> d) ∅ missions.

Definition clamp_k (vehicles_to_replace : nat)
    (veh_missions : gmap string Mission.t) : Py nat :=
  let k := vehicles_to_replace in
  if (size veh_missions <? k)%nat then
    emit (EvWarning (WarnTooFewMissions vehicles_to_replace (size veh_missions))) ;;;
    ret (size veh_missions)
  else ret k.

(** *** Lines 185-204: which vehicles to hijack *)

Definition select_sample (history : TrafficHistory.t) (k : nat)
    (veh_missions : gmap string Mission.t) (rng : Rng)
    : Py (gset string * Rng) :=
  sample <-
    (if bool_decide (TrafficHistory.dataset_source history = "Waymo") then
       match TrafficHistory.ego_vehicle_id history with
       | Some waymo_ego_id =>
           py_assert AssertWaymoK (k =? 1)%nat ;;;
           let veh_id := pretty waymo_ego_id in
           ret ({[ veh_id ]} : gset string)
       | None => emit (EvWarning WarnNoWaymoEgo) ;;; ret ∅
       end
     else ret ∅) ;;
  if bool_decide (sample = ∅) then
    let population := dict_keys veh_missions in
    emit (EvRandomSample population k) ;;;
    drawn <- random_sample rng population k ;;
    ret (list_to_set drawn.1, drawn.2)
  else ret (sample, rng).

(** *** Lines 206-211: the step cap *)

Definition max_episode_steps (history : TrafficHistory.t)
    (sample : gset string) : Py Qc :=
  budgets <-
    for_each (set_iter sample) [] (fun acc veh_id =>
      match TrafficHistory.vehicle_final_exit_time history veh_id with
      | Some t => ret (acc ++ [t / tenth])
      | None => raise TypeError
      end) ;;
  py_max budgets.

(** *** Lines 212-222: agent ids and the common start time *)

Record Slots := mkSlots {
  agentid_to_vehid : gmap string string;
  agent_interfaces : list string;
  history_start_time : option Qc }.

(** [not history_start_time]: [None] and zero are falsy. *)
Definition not_ (t : option Qc) : bool :=
  match t with
  | None => true
  | Some x => bool_decide (x = 0)
  end.

Definition lt_start (x : Qc) (t : option Qc) : bool :=
  match t with
  | None => false
  | Some y => bool_decide (x < y)
  end.

Definition dict_add_key (keys : list string) (key : string) : list string :=
  if decide (key ∈ keys) then keys else keys ++ [key].

Definition assign_slot (veh_missions : gmap string Mission.t)
    (s : Slots) (veh_id : string) : Py Slots :=
  let agent_id := "ego-agent-IL-" +:+ veh_id in
  mission <- getitem veh_missions veh_id ;;
  ret {| agentid_to_vehid := <[agent_id := veh_id]> (agentid_to_vehid s);
         agent_interfaces := dict_add_key (agent_interfaces s) agent_id;
         history_start_time :=
           if not_ (history_start_time s)
              || lt_start (Mission.start_time mission) (history_start_time s)
           then Some (Mission.start_time mission)
           else history_start_time s |}.

Definition assign_slots (veh_missions : gmap string Mission.t)
    (sample : gset string) : Py Slots :=
  for_each (set_iter sample)
    {| agentid_to_vehid := ∅; agent_interfaces := []; history_start_time := None |}
    (assign_slot veh_missions).

(** *** Lines 224-231: one agent per slot *)

Record Crew := mkCrew {
  agents : gmap string ReplayCheckerAgent.t;
  dones0 : gmap string bool;
  ego_missions : gmap string Mission.t }.

Definition build_crew (scenario : Scenario.t) (dt : Qc)
    (veh_missions : gmap string Mission.t) (slots : Slots)
    (time_offset : Qc) : Py Crew :=
  for_each (agent_interfaces slots)
    {| agents := ∅; dones0 := ∅; ego_missions := ∅ |}
    (fun c agent_id =>
       emit (EvBuildAgent agent_id) ;;;
       let agent := ReplayCheckerAgent.__init__ dt in
       veh_id <- getitem (agentid_to_vehid slots) agent_id ;;
       agent' <- ReplayCheckerAgent.load_data_for_vehicle agent veh_id
                   (Scenario.name scenario)
                   (TrafficHistory.name (Scenario.traffic_history scenario))
                   time_offset ;;
       mission <- getitem veh_missions veh_id ;;
       ret {| agents := <[agent_id := agent']> (agents c);
              dones0 := <[agent_id := false]> (dones0 c);
              ego_missions := <[agent_id := mission]> (ego_missions c) |}).

(** *** Lines 249-281: the simulation loop *)

Record Loop := mkLoop {
  smarts : SMARTS;
  observations : gmap string Observation.t;
  dones : gmap string bool }.

(** [not all(done for done in dones.values())] *)
Definition loop_condition (dones : gmap string bool) : bool :=
  negb (py_all (dict_values dones)).

Definition gather_actions (agents : gmap string ReplayCheckerAgent.t)
    (observations : gmap string Observation.t)
    : Py (gmap string action) :=
  for_each (map_to_list observations) ∅ (fun actions item =>
    agent <- getitem agents item.1 ;;
    a <- ReplayCheckerAgent.act agent item.2 ;;
    ret (<[item.1 := a]> actions)).

Definition prune_done (agent_ids : list string) (dones : gmap string bool)
    (observations : gmap string Observation.t)
    : Py (gmap string Observation.t) :=
  for_each agent_ids observations (fun obs agent_id =>
    if default false (dones !! agent_id) then
      o <- getitem obs agent_id ;;
      (if Events.reached_goal (Observation.events o) then ret tt
       else emit (EvWarning (WarnAgentExited agent_id))) ;;;
      ret (delete agent_id obs)
    else ret obs).

Definition loop_body (agents : gmap string ReplayCheckerAgent.t)
    (agent_ids : list string) (st : Loop) : Py Loop :=
  actions <- gather_actions agents (observations st) ;;
  emit (EvStep (dict_keys (observations st))) ;;;
  let r := step (smarts st) actions in
  observations' <- prune_done agent_ids r.2.2 r.2.1 ;;
  ret {| smarts := r.1; observations := observations'; dones := r.2.2 |}.

(** The [while] loop, unrolled at most [fuel] times; [None] when the
    loop is still running after that many iterations. *)
Fixpoint simulation_loop (fuel : nat)
    (agents : gmap string ReplayCheckerAgent.t) (agent_ids : list string)
    (st : Loop) : Py (option Loop) :=
  if loop_condition (dones st) then
    match fuel with
    | O => ret None
    | S fuel' =>
        st' <- loop_body agents agent_ids st ;;
        simulation_loop fuel' agents agent_ids st'
    end
  else ret (Some st).

(** *** Lines 175-281: one episode *)

Definition episode (scenario : Scenario.t)
    (veh_missions : gmap string Mission.t) (k : nat)
    (sim : SMARTS) (rng : Rng) (fuel : nat) : Py (option Loop * Rng) :=
  let history := Scenario.traffic_history scenario in
  chosen <- select_sample history k veh_missions rng ;;
  let sample := chosen.1 in
  cap <- max_episode_steps history sample ;;
  emit (EvSetMaxEpisodeSteps cap) ;;;
  slots <- assign_slots veh_missions sample ;;
  (* a non-empty sample has set the start time; an empty one has
     already made [max] raise *)
  start <- match history_start_time slots with
           | Some t => ret t
           | None => raise TypeError
           end ;;
  crew <- build_crew scenario (fixed_timestep_sec sim) veh_missions slots start ;;
  emit (EvSetEgoMissions (dict_keys (ego_missions crew))) ;;;
  let sim1 := switch_ego_agents sim (agent_interfaces slots) cap in
  emit (EvSwitchEgoAgents (agent_interfaces slots)) ;;;
  let sim_start_time := py_max2 0 (start - fixed_timestep_sec sim1) in
  emit (EvReset sim_start_time) ;;;
  let r := reset sim1 sim_start_time in
  py_assert AssertElapsed
    (bool_decide (elapsed_sim_time r.1 = fixed_timestep_sec r.1)
     || math_isclose (elapsed_sim_time r.1) start
          rel_tol_default abs_tol_default) ;;;
  final <- simulation_loop fuel (agents crew) (agent_interfaces slots)
             {| smarts := r.1; observations := r.2; dones := dones0 crew |} ;;
  ret (final, chosen.2).

(** *** Lines 117-166: what [main] does with one scenario before its
    episodes.  [None]: the scenario is skipped. *)

Definition prepare_scenario (scenario : Scenario.t)
    (vehicles_to_replace : nat)
    (exists_at_or_after minimum_history_duration ends_before : Qc)
    : Py (option (gmap string Mission.t * nat)) :=
  match TrafficHistory.last_seen_vehicle_time (Scenario.traffic_history scenario) with
  | None => emit (EvWarning WarnNoVehicles)
  | Some _ => ret tt
  end ;;;
  let veh_missions :=
    veh_missions_of
      (Scenario.history_missions_for_window scenario exists_at_or_after
         ends_before minimum_history_duration
         (custom_filter exists_at_or_after)) in
  if bool_decide (veh_missions = ∅) then
    emit (EvWarning WarnNoMissions) ;;; ret None
  else
    k <- clamp_k vehicles_to_replace veh_missions ;;
    ret (Some (veh_missions, k)).

(** [for episode in range(episodes)], the simulator and the random
    generator carried from one episode to the next.  [None]: some
    episode was still looping when its fuel ran out. *)
Fixpoint run_episodes (episodes : nat) (scenario : Scenario.t)
    (veh_missions : gmap string Mission.t) (k : nat)
    (sim : SMARTS) (rng : Rng) (fuel : nat) : Py (option SMARTS) :=
  match episodes with
  | O => ret (Some sim)
  | S n =>
      r <- episode scenario veh_missions k sim rng fuel ;;
      match r.1 with
      | None => ret None
      | Some st => run_episodes n scenario veh_missions k (smarts st) r.2 fuel
      end
  end.

(** [main] from its first line to the end of the episodes of the first
    scenario it is given: the assertions of lines 98-99 and one pass
    through the body of the loop of line 117, on the simulator that
    lines 105-109 have built.  What runs after that pass (later
    scenarios, [smarts.destroy()] of line 283) and the assertions of
    lines 112 and 118 on the objects handed over by the simulator are
    not part of this definition. *)
Definition main (scenario : Scenario.t) (vehicles_to_replace episodes : nat)
    (exists_at_or_after minimum_history_duration ends_before : Qc)
    (sim : SMARTS) (rng : Rng) (fuel : nat) : Py (option SMARTS) :=
  py_assert AssertReplace (0 <? vehicles_to_replace)%nat ;;;
  py_assert AssertEpisodes (0 <? episodes)%nat ;;;
  prepared <- prepare_scenario scenario vehicles_to_replace
                exists_at_or_after minimum_history_duration ends_before ;;
  match prepared with
  | None => ret (Some sim)
  | Some p => run_episodes episodes scenario p.1 p.2 sim rng fuel
  end.
End Main.

(** ** A concrete world

    A small simulator and data store on which the model can be run.
    [round_tenths] is modelled from the spec: [rounder_for_dt] is imported
    from [smarts.core.utils.math]; for a tick of 0.1 the quantizer snaps a
    time to the nearest grid point with one decimal place. *)

Module Demo.
Definition round_tenths (t : Qc) : Qc :=
  Q2Qc (((20 * Qnum t + Zpos (Qden t)) / (2 * Zpos (Qden t)))%Z # 10).

Definition still : EgoVehicleState.t :=
  (EgoVehicleState.mk 0 0 (0, 0))%float.

Definition obs_at (t : Qc) (s : EgoVehicleState.t) : Observation.t :=
  Observation.mk t s (Events.mk true).

(** The toy simulator: a clock, the controlled agents, and the number
    of ticks after which every agent is reported done. *)
Record Toy := mkToy {
  tick : Qc;
  clock : Qc;
  controlled : list string;
  ticks_left : nat }.

Definition toy_observations (s : Toy) : gmap string Observation.t :=
  list_to_map ((fun a => (a, obs_at (clock s) still)) <$> controlled s).

Definition toy_reset (s : Toy) (start : Qc) : Toy * gmap string Observation.t :=
  let s' := mkToy (tick s) (start + tick s) (controlled s) (ticks_left s) in
  (s', toy_observations s').

Definition toy_step (s : Toy) (actions : gmap string action)
    : Toy * (gmap string Observation.t * gmap string bool) :=
  let s' := mkToy (tick s) (clock s + tick s) (controlled s)
              (pred (ticks_left s)) in
  (s', (toy_observations s',
        list_to_map ((fun a => (a, (ticks_left s' =? 0)%nat)) <$> controlled s))).

Definition world (files : string -> exn + series) : Collaborators := {|
  rounder_for_dt := fun _ => round_tenths;
  pickle_load := files;
  set_iter := elements;
  set_iter_perm := fun s => reflexivity (elements s);
  SMARTS := Toy;
  fixed_timestep_sec := tick;
  elapsed_sim_time := clock;
  switch_ego_agents := fun s ids _ => mkToy (tick s) (clock s) ids (ticks_left s);
  reset := toy_reset;
  step := toy_step |}.

Definition no_files : string -> exn + series :=
  fun path => inl (FileNotFoundError path).

(** A recorded series with two ticks, 40.0 and 40.1. *)
Definition rec0 : Recorded.t := (Recorded.mk 0 0 (0, 0) 0.3 0.01)%float.
Definition rec1 : Recorded.t := (Recorded.mk 0 0 (0, 0) 0.5 0.02)%float.
Definition two_ticks : series := <[dec 40 1 := rec0]> (<[dec 401 10 := rec1]> ∅).

Definition one_file (path : string) (d : series) : string -> exn + series :=
  fun p => if decide (p = path) then inr d else inl (FileNotFoundError p).

Definition agent (d : option series) (offset : Qc) : ReplayCheckerAgent.t :=
  ReplayCheckerAgent.mk tenth round_tenths offset d "A".

Definition history (source : string) (ego : option Z) (exit : Qc)
    : TrafficHistory.t :=
  TrafficHistory.mk "h" source ego (fun _ => Some exit) (Some exit).

Definition scenario (source : string) (ego : option Z) (exit : Qc)
    (missions : list Mission.t) : Scenario.t :=
  Scenario.mk "s" (history source ego exit) (fun _ _ _ _ => missions).

Definition missions_AB : gmap string Mission.t :=
  <["A" := Mission.mk "A" 0]> (<["B" := Mission.mk "B" (dec 5 1)]> ∅).

Definition winA : VehicleWindow.t := VehicleWindow.mk "A" (dec 38 1) (dec 60 1) (dec 5 1).
Definition winB : VehicleWindow.t := VehicleWindow.mk "B" (dec 50 1) (dec 70 1) (dec 1 1).

Definition rng0 : Rng := fun i => i.

(** A record far from the origin, and a live state 3 units off in x. *)
Definition far : float := 10000000000%float.
Definition rec_far : Recorded.t := (Recorded.mk 0 0 (far, 0) 0.3 0.01)%float.
Definition far_tick : series := <[dec 40 1 := rec_far]> ∅.
Definition off_by_3 : EgoVehicleState.t :=
  (EgoVehicleState.mk 0 0 (10000000003, 0))%float.

(** A live state exactly at every tolerance limit of [rec0]. *)
Definition at_limits : EgoVehicleState.t :=
  (EgoVehicleState.mk 0.01 0.2 (2, -2))%float.

(** A live state whose heading is off by 0.02. *)
Definition off_heading : EgoVehicleState.t :=
  (EgoVehicleState.mk 0.02 0 (0, 0))%float.

(** A record with heading 0.3, and a live state with heading 0.31: the
    two decimal numbers are 1e-2 apart, and the difference computed
    from the binary64 numbers nearest to them is greater than the
    binary64 number 1e-2. *)
Definition rec_03 : Recorded.t := (Recorded.mk 0.3 0 (0, 0) 0.3 0.01)%float.
Definition tick_03 : series := <[dec 40 1 := rec_03]> ∅.
Definition heading_031 : EgoVehicleState.t :=
  (EgoVehicleState.mk 0.31 0 (0, 0))%float.

(** Every data file holds the two-tick series. *)
Definition all_files : string -> exn + series := fun _ => inr two_ticks.

(** The data file of A holds the two-tick series, every other file is
    cut short. *)
Definition truncated_files : string -> exn + series :=
  fun p =>
    if decide (p = ReplayCheckerAgent.datafile "s" "h" "A") then inr two_ticks
    else inl EOFError.

(** A single-ego scenario whose ego vehicle, 7, has the only mission. *)
Definition mission7 : Mission.t := Mission.mk "7" (dec 40 1).
Definition waymo7 : Scenario.t :=
  scenario "Waymo" (Some 7%Z) (dec 41 1) [mission7].

(** A single-ego scenario with a second admissible mission. *)
Definition waymo78 : Scenario.t :=
  scenario "Waymo" (Some 7%Z) (dec 41 1) [mission7; Mission.mk "8" (dec 41 1)].

(** A multi-vehicle scenario: A starts at time 0, B at time 5, and both
    leave at time 10. *)
Definition scenarioAB : Scenario.t :=
  scenario "NGSIM" None (dec 10 1) [Mission.mk "A" 0; Mission.mk "B" (dec 5 1)].

Definition sim0 (dt : Qc) : Toy := mkToy dt 0 [] 3.

(** A loop state with one agent that is not done yet. *)
Definition loop0 : @Loop (world all_files) :=
  @mkLoop (world all_files) (mkToy tenth (dec 40 1) ["a"] 2) ∅
    {[ "a" := false ]}.
Definition crew0 : gmap string ReplayCheckerAgent.t :=
  {[ "a" := agent (Some two_ticks) 0 ]}.
End Demo.

(** ** Vocabulary of the statements about [act] *)

Module ActSpec.
Import ReplayCheckerAgent.

(** The key under which [act] looks up the current observation. *)
Definition quantized_time (self : t) (obs : Observation.t) : Qc :=
  _rounder self (Observation.elapsed_sim_time obs + _time_offset self).

(** All four tolerance checks of lines 65-79 pass. *)
Definition within_tolerance (cur : EgoVehicleState.t) (exp : Recorded.t)
    : bool :=
  math_isclose (EgoVehicleState.heading cur) (Recorded.heading exp)
    rel_tol_default 1e-2%float
  && math_isclose (EgoVehicleState.speed cur) (Recorded.speed exp)
       rel_tol_default 0.2%float
  && math_isclose (EgoVehicleState.position cur).1 (Recorded.ego_pos exp).1
       rel_tol_default 2%float
  && math_isclose (EgoVehicleState.position cur).2 (Recorded.ego_pos exp).2
       rel_tol_default 2%float.

(** The control input stored for the tick after the observed one. *)
Definition next_control (self : t) (obs : Observation.t) (d : series)
    : action :=
  match d !! _rounder self (quantized_time self obs + _fixed_timestep_sec self) with
  | Some r => (Recorded.acceleration r, Recorded.angular_velocity r)
  | None => neutral
  end.

(** The difference of a live and a recorded value as [math.isclose]
    computes it, [fabs(b - a)] in binary64 arithmetic. *)
Definition difference (live recorded : float) : float :=
  PrimFloat.abs (PrimFloat.sub recorded live).

(** [t] is a number: neither an infinity nor a NaN. *)
Definition finite (t : float) : Prop :=
  match Prim2SF t with
  | S754_zero _ | S754_finite _ _ _ => True
  | _ => False
  end.

(** The computed difference is greater than [limit]. *)
Definition beyond (live recorded limit : float) : Prop :=
  PrimFloat.ltb limit (difference live recorded) = true.

(** The two values are not equal, and the computed difference is
    neither at most [limit] nor at most what the relative tolerance of
    [math.isclose] allows for either of them, 1e-09 times its
    magnitude. *)
Definition exceeds (live recorded limit : float) : Prop :=
  PrimFloat.eqb live recorded = false
  ∧ PrimFloat.leb (difference live recorded) limit = false
  ∧ PrimFloat.leb (difference live recorded)
      (PrimFloat.abs (PrimFloat.mul rel_tol_default recorded)) = false
  ∧ PrimFloat.leb (difference live recorded)
      (PrimFloat.abs (PrimFloat.mul rel_tol_default live)) = false.

Definition is_tolerance_assert (a : assertion) : Prop :=
  a = AssertHeading ∨ a = AssertSpeed ∨ a = AssertPosX ∨ a = AssertPosY.
End ActSpec.

(** ** Vocabulary of the statements about [main] *)

Module MainSpec.
(** [m] is the greatest element of [xs]. *)
Definition is_max_of (m : Qc) (xs : list Qc) : Prop :=
  m ∈ xs ∧ ∀ x, x ∈ xs → x ≤ m.

(** [m] is the least element of [xs]. *)
Definition is_min_of (m : Qc) (xs : list Qc) : Prop :=
  m ∈ xs ∧ ∀ x, x ∈ xs → m ≤ x.

Definition is_sim_event (ev : event) : Prop :=
  match ev with
  | EvReset _ | EvStep _ => True
  | _ => False
  end.

Definition is_build_event (ev : event) : Prop :=
  match ev with
  | EvBuildAgent _ => True
  | _ => False
  end.

Definition is_sampling_event (ev : event) : Prop :=
  match ev with
  | EvRandomSample _ _ => True
  | _ => False
  end.
End MainSpec.

(** ** Further vocabulary and fixtures *)

Module Further.
Import ReplayCheckerAgent ActSpec.

(** The assertions of [act], in the order of lines 55-79. *)
Definition all_checks : list event :=
  [EvAssert AssertData; EvAssert AssertHeading; EvAssert AssertSpeed;
   EvAssert AssertPosX; EvAssert AssertPosY].

(** The computed difference of the live and the recorded value is at
    most [limit]. *)
Definition within (live recorded limit : float) : Prop :=
  PrimFloat.leb (difference live recorded) limit = true.

Definition within_limits (cur : EgoVehicleState.t) (exp : Recorded.t) : Prop :=
  within (EgoVehicleState.heading cur) (Recorded.heading exp) 1e-2%float
  ∧ within (EgoVehicleState.speed cur) (Recorded.speed exp) 0.2%float
  ∧ within (EgoVehicleState.position cur).1 (Recorded.ego_pos exp).1 2%float
  ∧ within (EgoVehicleState.position cur).2 (Recorded.ego_pos exp).2 2%float.

(** The agent identifier of line 215. *)
Definition agent_id_of (veh_id : string) : string := "ego-agent-IL-" +:+ veh_id.

(** [dones.get(agent_id, False)] *)
Definition done_flag (dones : gmap string bool) (agent_id : string) : bool :=
  default false (dones !! agent_id).

(** The agent is reported done and its observation does not say that
    it reached its goal. *)
Definition exited_early (dones : gmap string bool)
    (obs : gmap string Observation.t) (agent_id : string) : bool :=
  done_flag dones agent_id
  && match obs !! agent_id with
     | Some o => negb (Events.reached_goal (Observation.events o))
     | None => false
     end.

Definition is_assert_event (ev : event) : Prop :=
  match ev with
  | EvAssert _ => True
  | _ => False
  end.

Definition is_warning_event (ev : event) : Prop :=
  match ev with
  | EvWarning _ => True
  | _ => False
  end.

Definition is_step_event (ev : event) : Prop :=
  match ev with
  | EvStep _ => True
  | _ => False
  end.

Definition is_reset_event (ev : event) : Prop :=
  match ev with
  | EvReset _ => True
  | _ => False
  end.

(** What the simulation loop logs: assertion checks of the agents,
    steps, and exit warnings. *)
Definition loop_event (ev : event) : Prop :=
  is_assert_event ev ∨ is_step_event ev ∨ is_warning_event ev.

(** The log of a run is a part without simulator events, followed
    either by nothing, the run having failed, or by one reset and
    then loop events only. *)
Definition episode_shape {A} (m : Py A) : Prop :=
  ∃ pre post,
    trace m = pre ++ post
    ∧ Forall (fun ev => ¬ MainSpec.is_sim_event ev) pre
    ∧ ((post = [] ∧ ∃ e, outcome m = inl e)
       ∨ ∃ t post', post = EvReset t :: post' ∧ Forall loop_event post').

(** How many times the simulator was reset. *)
Definition is_reset (ev : event) : bool :=
  match ev with
  | EvReset _ => true
  | _ => false
  end.

Definition resets (tr : list event) : nat :=
  length (List.filter is_reset tr).
End Further.

Module Cases.
(** A live state inside every tolerance band of [Demo.rec0]. *)
Definition near : EgoVehicleState.t :=
  (EgoVehicleState.mk 0.005 0.1 (1, -1))%float.

(** A third window, moving and starting at 42. *)
Definition winC : VehicleWindow.t :=
  VehicleWindow.mk "C" (dec 42 1) (dec 70 1) (dec 6 1).

(** A single-ego scenario whose ego vehicle, 9, has no admissible
    mission. *)
Definition waymo9 : Scenario.t :=
  Demo.scenario "Waymo" (Some 9%Z) (dec 41 1) [Demo.mission7].

(** Missions none of which starts at time 0. *)
Definition missions_late : gmap string Mission.t :=
  <["A" := Mission.mk "A" (dec 3 1)]> (<["B" := Mission.mk "B" (dec 5 1)]> ∅).
Definition start_late (v : string) : Qc :=
  if decide (v = "A") then dec 3 1 else dec 5 1.

(** The slots of the sample {A, B} of [Demo.missions_AB]. *)
Definition slotsAB : Slots :=
  {| agentid_to_vehid :=
       <["ego-agent-IL-A" := "A"]> (<["ego-agent-IL-B" := "B"]> ∅);
     agent_interfaces := ["ego-agent-IL-A"; "ego-agent-IL-B"];
     history_start_time := Some (dec 5 1) |}.

(** Only the data file of A exists. *)
Definition only_A : string -> exn + series :=
  Demo.one_file (ReplayCheckerAgent.datafile "s" "h" "A") Demo.two_ticks.

(** Two agents, of which "a" is done without having reached its goal. *)
Definition dones_a : gmap string bool := <["a" := true]> (<["b" := false]> ∅).
Definition obs_ab : gmap string Observation.t :=
  <["a" := Observation.mk (dec 40 1) Demo.still (Events.mk false)]>
    (<["b" := Demo.obs_at (dec 40 1) Demo.still]> ∅).
End Cases.

(** The bodies of the loops of [main], named so that statements can
    speak about a loop started from any accumulator. *)

Section LoopBodies.
Context `{C : Collaborators}.
Local Open Scope py_scope.

(** Lines 225-231. *)
Definition crew_body (scenario : Scenario.t) (dt : Qc)
    (veh_missions : gmap string Mission.t) (slots : Slots) (time_offset : Qc)
    (c : Crew) (agent_id : string) : Py Crew :=
  emit (EvBuildAgent agent_id) ;;;
  let agent := ReplayCheckerAgent.__init__ dt in
  veh_id <- getitem (agentid_to_vehid slots) agent_id ;;
  agent' <- ReplayCheckerAgent.load_data_for_vehicle agent veh_id
              (Scenario.name scenario)
              (TrafficHistory.name (Scenario.traffic_history scenario))
              time_offset ;;
  mission <- getitem veh_missions veh_id ;;
  ret {| agents := <[agent_id := agent']> (agents c);
         dones0 := <[agent_id := false]> (dones0 c);
         ego_missions := <[agent_id := mission]> (ego_missions c) |}.

(** Lines 250-253. *)
Definition action_body (agents : gmap string ReplayCheckerAgent.t)
    (actions : gmap string action) (item : string * Observation.t)
    : Py (gmap string action) :=
  agent <- getitem agents item.1 ;;
  a <- ReplayCheckerAgent.act agent item.2 ;;
  ret (<[item.1 := a]> actions).

(** Lines 262-281. *)
Definition prune_body (dones : gmap string bool)
    (obs : gmap string Observation.t) (agent_id : string)
    : Py (gmap string Observation.t) :=
  if default false (dones !! agent_id) then
    o <- getitem obs agent_id ;;
    (if Events.reached_goal (Observation.events o) then ret tt
     else emit (EvWarning (WarnAgentExited agent_id))) ;;;
    ret (delete agent_id obs)
  else ret obs.

(** The agent that lines 225-228 build for a vehicle whose file holds
    [d]. *)
Definition loaded_agent (dt time_offset : Qc) (veh_id : string) (d : series)
    : ReplayCheckerAgent.t :=
  {| ReplayCheckerAgent._fixed_timestep_sec := dt;
     ReplayCheckerAgent._rounder := rounder_for_dt dt;
     ReplayCheckerAgent._time_offset := time_offset;
     ReplayCheckerAgent._data := Some d;
     ReplayCheckerAgent._vehicle_id := veh_id |}.

(** The data file of a vehicle of a scenario. *)
Definition datafile_of (scenario : Scenario.t) (veh_id : string) : string :=
  ReplayCheckerAgent.datafile (Scenario.name scenario)
    (TrafficHistory.name (Scenario.traffic_history scenario)) veh_id.
End LoopBodies.

(** * Properties *)

(** ** The monad *)

Lemma trace_bind {A B} (m : Py A) (f : A -> Py B) :
  trace (bind m f)
  = trace m ++ match outcome m with
               | inr a => trace (f a)
               | inl _ => []
               end.
Proof.
  destruct m as [tr [e|a]]; cbn.
  - by rewrite app_nil_r.
  - by destruct (f a).
Qed.

(** ** [math.isclose] *)

Lemma isinf_infinite x : isinf x = true -> ∃ s, Prim2SF x = S754_infinity s.
Proof.
  unfold isinf. intros H. apply orb_true_iff in H.
  rewrite !FloatAxioms.eqb_spec in H.
  replace (Prim2SF infinity) with (S754_infinity false) in H by reflexivity.
  replace (Prim2SF neg_infinity) with (S754_infinity true) in H by reflexivity.
  destruct (Prim2SF x) as [s|s| |s m e]; destruct H as [H|H];
    try discriminate H; eauto; destruct s; discriminate H.
Qed.

(** A difference that is at most a number was not computed from an
    infinity. *)
Lemma within_not_infinite a b t :
  ActSpec.finite t ->
  PrimFloat.leb (ActSpec.difference a b) t = true ->
  isinf a = false ∧ isinf b = false.
Proof.
  unfold ActSpec.finite, ActSpec.difference. intros Ht H.
  rewrite FloatAxioms.leb_spec, FloatAxioms.abs_spec, FloatAxioms.sub_spec in H.
  split; apply not_true_iff_false; intros Hi;
    apply isinf_infinite in Hi as [s Hs];
    rewrite Hs in H; unfold SF64sub, SFsub in H.
  - destruct (Prim2SF b) as [s'|s'| |s' m e]; cbn in H;
      destruct (Prim2SF t) as [st|st| |st mt et]; try done;
      repeat (match goal with s : bool |- _ => destruct s end;
              cbn in H; try done).
  - destruct (Prim2SF a) as [s'|s'| |s' m e]; cbn in H;
      destruct (Prim2SF t) as [st|st| |st mt et]; try done;
      repeat (match goal with s : bool |- _ => destruct s end;
              cbn in H; try done).
Qed.

Lemma leb_refl_finite t : ActSpec.finite t -> PrimFloat.leb t t = true.
Proof.
  unfold ActSpec.finite. rewrite FloatAxioms.leb_spec.
  destruct (Prim2SF t) as [s|s| |s m e]; try done; intros _.
  unfold SFleb, SFcompare.
  destruct s; rewrite Z.compare_refl, Pos.compare_cont_refl; reflexivity.
Qed.

Lemma math_isclose_within a b r t :
  Further.within a b t -> ActSpec.finite t -> math_isclose a b r t = true.
Proof.
  unfold Further.within. intros H Ht.
  destruct (within_not_infinite a b t Ht H) as [Ha Hb].
  unfold math_isclose. cbn [num_eqb num_isinf num_sub num_mul num_fabs num_leb double].
  destruct (PrimFloat.eqb a b); [done|].
  rewrite Ha, Hb. cbn [orb]. unfold ActSpec.difference in H. rewrite H.
  by rewrite !orb_true_r.
Qed.

Lemma math_isclose_at_limit a b r t :
  ActSpec.difference a b = t -> ActSpec.finite t -> math_isclose a b r t = true.
Proof.
  intros H Ht. apply math_isclose_within; [|done].
  unfold Further.within. rewrite H. by apply leb_refl_finite.
Qed.

Lemma math_isclose_exceeds a b t :
  ActSpec.exceeds a b t -> math_isclose a b rel_tol_default t = false.
Proof.
  unfold ActSpec.exceeds, ActSpec.difference. intros (Hne & Ht & Hb & Ha).
  unfold math_isclose. cbn [num_eqb num_isinf num_sub num_mul num_fabs num_leb double].
  rewrite Hne. destruct (isinf a || isinf b); [done|].
  cbn [rel_tol_default double] in *. by rewrite Ht, Hb, Ha.
Qed.

(** ** [ReplayCheckerAgent.act] *)

Import ReplayCheckerAgent.

Section ActProperties.
Import ActSpec.

Lemma data_truthy_nonempty (d : series) :
  d ≠ ∅ -> data_truthy (Some d) = true.
Proof. intros H. unfold data_truthy. by rewrite bool_decide_eq_false_2. Qed.

Lemma lookup_nonempty (d : series) k r : d !! k = Some r -> d ≠ ∅.
Proof. intros H ->. by rewrite lookup_empty in H. Qed.

(** What [act] does once the record of the observed tick is found. *)
Lemma act_present self obs d exp :
  _data self = Some d ->
  d !! quantized_time self obs = Some exp ->
  let cur := Observation.ego_vehicle_state obs in
  outcome (act self obs) =
    if within_tolerance cur exp then inr (next_control self obs d)
    else if negb (math_isclose (EgoVehicleState.heading cur)
                    (Recorded.heading exp) rel_tol_default 1e-2%float)
    then inl (AssertionError AssertHeading)
    else if negb (math_isclose (EgoVehicleState.speed cur)
                    (Recorded.speed exp) rel_tol_default 0.2%float)
    then inl (AssertionError AssertSpeed)
    else if negb (math_isclose (EgoVehicleState.position cur).1
                    (Recorded.ego_pos exp).1 rel_tol_default 2%float)
    then inl (AssertionError AssertPosX)
    else inl (AssertionError AssertPosY).
Proof.
  intros Hd Hk cur. subst cur. unfold act, within_tolerance, next_control.
  rewrite Hd, (data_truthy_nonempty _ (lookup_nonempty _ _ _ Hk)).
  unfold quantized_time in *. cbn [bind py_assert]. rewrite Hk.
  repeat (match goal with
          | |- context [math_isclose ?a ?b ?c ?t] =>
              destruct (math_isclose a b c t)
          end;
          cbn [bind py_assert andb negb outcome snd]; try reflexivity).
  match goal with |- context [d !! ?k] => destruct (d !! k) end; reflexivity.
Qed.

Lemma act_unloaded self obs :
  data_truthy (_data self) = false ->
  act self obs = ([EvAssert AssertData], inl (AssertionError AssertData)).
Proof. intros H. unfold act. by rewrite H. Qed.

(** C6 (as amended).  When the agent's loaded series is not empty and
    holds no record under the quantized time of the observation, [act]
    returns the neutral control input (0, 0); the only assertion it has
    evaluated is the one on the loaded data, so no tolerance check was
    made on the live state. *)
Theorem act_neutral_on_missing_record self obs (d : series) :
  _data self = Some d ->
  d ≠ ∅ ->
  d !! quantized_time self obs = None ->
  act self obs = ([EvAssert AssertData], inr neutral).
Proof.
  intros Hd Hne Hk. unfold act.
  rewrite Hd, (data_truthy_nonempty _ Hne).
  unfold quantized_time in Hk. cbn [bind py_assert]. by rewrite Hk.
Qed.

(** C7 (as amended).  With a record for the observed tick: a live state
    for which the differences from the recorded heading, speed and
    position components, computed in binary64 arithmetic as
    [math.isclose] computes them, are exactly the binary64 numbers
    1e-2, 0.2, 2 and 2 is accepted, and [act] returns the next control
    input; a live state for which some quantity is not equal to the
    recorded one and has a computed difference that is neither at most
    its limit nor at most 1e-09 times the magnitude of either compared
    value makes [act] raise one of the four tolerance assertions. *)
Theorem act_tolerance_boundary self obs (d : series) exp :
  _data self = Some d ->
  d !! quantized_time self obs = Some exp ->
  let cur := Observation.ego_vehicle_state obs in
  let h := EgoVehicleState.heading cur in
  let s := EgoVehicleState.speed cur in
  let x := (EgoVehicleState.position cur).1 in
  let y := (EgoVehicleState.position cur).2 in
  (difference h (Recorded.heading exp) = 1e-2%float ->
   difference s (Recorded.speed exp) = 0.2%float ->
   difference x (Recorded.ego_pos exp).1 = 2%float ->
   difference y (Recorded.ego_pos exp).2 = 2%float ->
   outcome (act self obs) = inr (next_control self obs d))
  ∧ (exceeds h (Recorded.heading exp) 1e-2%float
     ∨ exceeds s (Recorded.speed exp) 0.2%float
     ∨ exceeds x (Recorded.ego_pos exp).1 2%float
     ∨ exceeds y (Recorded.ego_pos exp).2 2%float ->
     ∃ a, is_tolerance_assert a
          ∧ outcome (act self obs) = inl (AssertionError a)).
Proof.
  intros Hd Hk cur h s x y. subst h s x y.
  pose proof (act_present self obs d exp Hd Hk) as Hact.
  cbv zeta in Hact. fold cur in Hact. unfold within_tolerance in Hact.
  split.
  - intros Hh Hs Hx Hy.
    rewrite (math_isclose_at_limit _ _ _ _ Hh I),
      (math_isclose_at_limit _ _ _ _ Hs I),
      (math_isclose_at_limit _ _ _ _ Hx I),
      (math_isclose_at_limit _ _ _ _ Hy I) in Hact.
    exact Hact.
  - unfold is_tolerance_assert. intros Hex. rewrite Hact. clear Hact.
    destruct (math_isclose (EgoVehicleState.heading cur) _ _ _) eqn:Eh;
      cbn [andb negb]; [|eauto 6].
    destruct (math_isclose (EgoVehicleState.speed cur) _ _ _) eqn:Es;
      cbn [andb negb]; [|eauto 6].
    destruct (math_isclose (EgoVehicleState.position cur).1 _ _ _) eqn:Ex;
      cbn [andb negb]; [|eauto 7].
    destruct (math_isclose (EgoVehicleState.position cur).2 _ _ _) eqn:Ey;
      cbn [andb negb]; [|eauto 8].
    destruct Hex as [H | [H | [H | H]]];
      apply math_isclose_exceeds in H; congruence.
Qed.

(** C8.  When the record of the observed tick is present and the live
    state passes the tolerance checks, [act] returns the pair
    (acceleration, angular_velocity) stored under the key
    quantize(obs_time + dt) if there is one, and (0, 0) otherwise. *)
Theorem act_returns_next_control self obs (d : series) exp :
  _data self = Some d ->
  d !! quantized_time self obs = Some exp ->
  within_tolerance (Observation.ego_vehicle_state obs) exp = true ->
  let atime :=
    _rounder self (quantized_time self obs + _fixed_timestep_sec self) in
  (∀ r, d !! atime = Some r ->
        outcome (act self obs)
        = inr (Recorded.acceleration r, Recorded.angular_velocity r))
  ∧ (d !! atime = None -> outcome (act self obs) = inr (0, 0)%float).
Proof.
  intros Hd Hk Htol atime.
  pose proof (act_present self obs d exp Hd Hk) as Hact.
  cbv zeta in Hact. rewrite Htol in Hact. unfold next_control in Hact.
  fold atime in Hact. split.
  - intros r Hr. by rewrite Hr in Hact.
  - intros Hr. by rewrite Hr in Hact.
Qed.

(** C10.  An agent on which [load_data_for_vehicle] has not run, or
    whose loaded mapping is empty, raises the AssertionError of line 55
    on every observation; whenever [act] returns a control input at
    all, the loaded series is not empty. *)
Theorem act_requires_loaded_data `{C : Collaborators} :
  (∀ dt obs,
      act (__init__ dt) obs
      = ([EvAssert AssertData], inl (AssertionError AssertData)))
  ∧ (∀ self obs,
      _data self = None ∨ _data self = Some ∅ ->
      act self obs
      = ([EvAssert AssertData], inl (AssertionError AssertData)))
  ∧ (∀ self obs r,
      outcome (act self obs) = inr r ->
      ∃ d : series, _data self = Some d ∧ d ≠ ∅).
Proof.
  split; [|split].
  - intros dt obs. by apply act_unloaded.
  - intros self obs [H | H]; apply act_unloaded; by rewrite H.
  - intros self obs r H.
    destruct (data_truthy (_data self)) eqn:E.
    + unfold data_truthy in E. destruct (_data self) as [d|]; [|done].
      exists d. split; [done|]. intros ->. by rewrite bool_decide_eq_true_2 in E.
    + by rewrite (act_unloaded _ _ E) in H.
Qed.
End ActProperties.

(** *** [act] on the concrete series *)

Ltac qc_eq := apply Qc_is_canon; vm_compute; reflexivity.
Ltac qc_lt := vm_compute; reflexivity.

(** [E] says that a run of the concrete world raised, or that it ran out
    of iterations: refuted by running it. *)
Ltac did_not_raise E :=
  exfalso;
  apply (f_equal (fun m => match snd m with inl _ => true | inr _ => false end))
    in E;
  vm_compute in E; discriminate E.
Ltac did_not_run_out E :=
  exfalso;
  apply (f_equal (fun m => match snd m with inr None => true | _ => false end))
    in E;
  vm_compute in E; discriminate E.

Lemma act_neutral_on_missing_record_witness :
  act (Demo.agent (Some Demo.two_ticks) 0) (Demo.obs_at (dec 39 1) Demo.still)
  = ([EvAssert AssertData], inr ReplayCheckerAgent.neutral).
Proof.
  apply (act_neutral_on_missing_record _ _ Demo.two_ticks).
  - reflexivity.
  - apply insert_non_empty.
  - vm_compute. reflexivity.
Defined.

(** C6 as stated fails on a loaded series that is empty: no key has a
    record there, yet [act] raises instead of returning (0, 0). *)
Lemma act_empty_series_counterexample :
  let self := Demo.agent (Some ∅) 0 in
  let obs := Demo.obs_at (dec 40 1) Demo.still in
  ReplayCheckerAgent._data self = Some ∅
  ∧ (∅ : series) !! ActSpec.quantized_time self obs = None
  ∧ outcome (act self obs) = inl (AssertionError AssertData)
  ∧ outcome (act self obs) ≠ inr ReplayCheckerAgent.neutral.
Proof. repeat split; try reflexivity. vm_compute. discriminate. Qed.

Lemma act_tolerance_boundary_witness :
  outcome (act (Demo.agent (Some Demo.two_ticks) 0)
             (Demo.obs_at (dec 40 1) Demo.at_limits))
  = inr (Recorded.acceleration Demo.rec1, Recorded.angular_velocity Demo.rec1)
  ∧ ∃ a, ActSpec.is_tolerance_assert a
         ∧ outcome (act (Demo.agent (Some Demo.two_ticks) 0)
                      (Demo.obs_at (dec 40 1) Demo.off_heading))
           = inl (AssertionError a).
Proof.
  split.
  - destruct (act_tolerance_boundary (Demo.agent (Some Demo.two_ticks) 0)
                (Demo.obs_at (dec 40 1) Demo.at_limits) Demo.two_ticks Demo.rec0)
      as [H _]; [reflexivity | vm_compute; reflexivity |].
    rewrite H; vm_compute; reflexivity.
  - destruct (act_tolerance_boundary (Demo.agent (Some Demo.two_ticks) 0)
                (Demo.obs_at (dec 40 1) Demo.off_heading) Demo.two_ticks Demo.rec0)
      as [_ H]; [reflexivity | vm_compute; reflexivity |].
    apply H. left. repeat split; vm_compute; reflexivity.
Defined.

(** C7 as stated fails far from the origin: the live x = 10000000003 is
    3 away from the recorded x = 1e10 (both are binary64 numbers and so
    is their difference), beyond the limit 2, and every check still
    passes because 3 is less than 1e-09 * 1e10. *)
Lemma act_accepts_beyond_limit_counterexample :
  let self := Demo.agent (Some Demo.far_tick) 0 in
  let obs := Demo.obs_at (dec 40 1) Demo.off_by_3 in
  Demo.far_tick !! ActSpec.quantized_time self obs = Some Demo.rec_far
  ∧ ActSpec.difference (EgoVehicleState.position Demo.off_by_3).1
      (Recorded.ego_pos Demo.rec_far).1 = 3%float
  ∧ ActSpec.beyond (EgoVehicleState.position Demo.off_by_3).1
      (Recorded.ego_pos Demo.rec_far).1 2%float
  ∧ outcome (act self obs) = inr ReplayCheckerAgent.neutral
  ∧ ¬ ∃ a, outcome (act self obs) = inl (AssertionError a).
Proof.
  assert (H : outcome (act (Demo.agent (Some Demo.far_tick) 0)
                         (Demo.obs_at (dec 40 1) Demo.off_by_3))
              = inr ReplayCheckerAgent.neutral) by (vm_compute; reflexivity).
  cbv zeta. split; [vm_compute; reflexivity|].
  split; [vm_compute; reflexivity|]. split; [vm_compute; reflexivity|].
  split; [exact H|]. intros [a Ha]. rewrite H in Ha. discriminate.
Qed.

(** The first half of C7 read on decimal numbers fails as well: with
    the recorded heading 0.3 and the live heading 0.31 the computed
    difference is greater than the binary64 number 1e-2, and [act]
    raises the heading assertion. *)
Lemma act_refuses_decimal_step :
  let self := Demo.agent (Some Demo.tick_03) 0 in
  let obs := Demo.obs_at (dec 40 1) Demo.heading_031 in
  Demo.tick_03 !! ActSpec.quantized_time self obs = Some Demo.rec_03
  ∧ ActSpec.beyond (EgoVehicleState.heading Demo.heading_031)
      (Recorded.heading Demo.rec_03) 1e-2%float
  ∧ act self obs
    = ([EvAssert AssertData; EvAssert AssertHeading],
       inl (AssertionError AssertHeading)).
Proof. cbv zeta. repeat split; vm_compute; reflexivity. Qed.

Lemma act_returns_next_control_witness :
  outcome (act (Demo.agent (Some Demo.two_ticks) 0)
             (Demo.obs_at (dec 40 1) Demo.still))
  = inr (Recorded.acceleration Demo.rec1, Recorded.angular_velocity Demo.rec1)
  ∧ outcome (act (Demo.agent (Some Demo.two_ticks) 0)
               (Demo.obs_at (dec 401 10) Demo.still))
    = inr (0, 0)%float.
Proof.
  split.
  - apply (act_returns_next_control (Demo.agent (Some Demo.two_ticks) 0)
             (Demo.obs_at (dec 40 1) Demo.still) Demo.two_ticks Demo.rec0);
      vm_compute; reflexivity.
  - apply (act_returns_next_control (Demo.agent (Some Demo.two_ticks) 0)
             (Demo.obs_at (dec 401 10) Demo.still) Demo.two_ticks Demo.rec1);
      vm_compute; reflexivity.
Defined.

Lemma act_requires_loaded_data_witness :
  act (@ReplayCheckerAgent.__init__ (Demo.world Demo.no_files) tenth)
    (Demo.obs_at (dec 40 1) Demo.still)
  = ([EvAssert AssertData], inl (AssertionError AssertData))
  ∧ act (Demo.agent (Some ∅) 0) (Demo.obs_at (dec 40 1) Demo.still)
    = ([EvAssert AssertData], inl (AssertionError AssertData)).
Proof.
  destruct (@act_requires_loaded_data (Demo.world Demo.no_files)) as (H1 & H2 & _).
  split.
  - apply H1.
  - apply H2. right. reflexivity.
Defined.

(** ** The custom filter *)

(** C3.  The custom filter keeps exactly the windows whose average speed
    is above 3 and whose start time is less than 4 away from
    [exists_at_or_after], in their original order; for A (start 38,
    speed 5) and B (start 50, speed 1) with [exists_at_or_after] = 40
    the output is A alone. *)
Theorem custom_filter_exact :
  (∀ exists_at_or_after vehs v,
      v ∈ custom_filter exists_at_or_after vehs
      ↔ v ∈ vehs
        ∧ dec 3 1 < VehicleWindow.average_speed v
        ∧ Qcabs (VehicleWindow.start_time v - exists_at_or_after) < dec 4 1)
  ∧ (∀ exists_at_or_after vehs,
      custom_filter exists_at_or_after vehs `sublist_of` vehs)
  ∧ custom_filter (dec 40 1) [Demo.winA; Demo.winB] = [Demo.winA].
Proof.
  split; [|split].
  - intros t0 vehs v. unfold custom_filter. cbv zeta.
    rewrite list_elem_of_filter. unfold start_window, Qc3, Qc4. tauto.
  - intros t0 vehs. apply sublist_filter.
  - vm_compute. reflexivity.
Qed.

(** ** Sampling without replacement *)

Lemma pool_after_draw (pool : list string) j x y :
  pool !! j = Some x ->
  pool !! (length pool - 1)%nat = Some y ->
  take (length pool - 1)%nat (<[j := y]> pool) ≡ₚ delete j pool.
Proof.
  intros Hj Hy.
  assert (Hlt : (j < length pool)%nat) by (eapply lookup_lt_Some; eauto).
  destruct (decide (j = length pool - 1)%nat) as [->|Hne].
  - rewrite take_insert_ge by lia.
    rewrite delete_take_drop.
    replace (S (length pool - 1)) with (length pool) by lia.
    by rewrite drop_all, app_nil_r.
  - rewrite take_insert_lt by lia.
    rewrite <-(take_drop (length pool - 1)%nat pool) at 3.
    assert (Hd : drop (length pool - 1)%nat pool = [y]).
    { apply list_eq. intros i. rewrite lookup_drop.
      destruct i as [|i]; cbn.
      - by rewrite Nat.add_0_r.
      - apply lookup_ge_None_2. lia. }
    rewrite Hd.
    assert (Hj' : take (length pool - 1)%nat pool !! j = Some x).
    { rewrite lookup_take_lt by lia. done. }
    set (l := take (length pool - 1)%nat pool) in *.
    assert (Hl : (j < length l)%nat) by (eapply lookup_lt_Some; eauto).
    rewrite (delete_take_drop (l ++ [y])).
    rewrite insert_take_drop by done.
    rewrite take_app_le by lia.
    rewrite drop_app_le by lia.
    rewrite <-Permutation_middle.
    rewrite (Permutation_app_comm (drop (S j) l) [y]). cbn.
    by rewrite <-Permutation_middle.
Qed.

Lemma sample_from_pool_spec (rng : Rng) (pool : list string) k :
  NoDup pool -> (k ≤ length pool)%nat ->
  let r := (sample_from_pool rng pool k).1 in
  length r = k ∧ NoDup r ∧ r ⊆ pool.
Proof.
  revert rng pool. induction k as [|k IH]; intros rng pool Hnd Hk; cbn.
  - split; [done|]. split; [constructor|]. apply list_subseteq_nil.
  - assert (Hpos : (0 < length pool)%nat) by lia.
    assert (Hj : (rng 0%nat mod length pool < length pool)%nat)
      by (apply Nat.mod_upper_bound; lia).
    destruct (lookup_lt_is_Some_2 pool _ Hj) as [x Hx].
    destruct (lookup_lt_is_Some_2 pool (length pool - 1)%nat) as [y Hy]; [lia|].
    rewrite Hx, Hy.
    pose proof (pool_after_draw pool _ x y Hx Hy) as Hperm.
    set (pool' := take (length pool - 1)%nat _) in *.
    assert (Hnd' : NoDup (delete (rng 0%nat mod length pool)%nat pool))
      by (eapply sublist_NoDup; [done|apply sublist_delete]).
    assert (Hlen : length pool' = (length pool - 1)%nat).
    { unfold pool'. rewrite length_take, length_insert. lia. }
    destruct (IH (fun i => rng (S i)) pool') as (Hl & Hn & Hs).
    { by rewrite Hperm. }
    { lia. }
    destruct (sample_from_pool _ pool' k) as [r rng''] eqn:E. cbn in *.
    assert (Hpool : pool ≡ₚ x :: pool').
    { rewrite Hperm. rewrite <-(take_drop_middle pool _ x Hx) at 1.
      rewrite delete_take_drop. by rewrite <-Permutation_middle. }
    split; [by rewrite Hl|]. split.
    + constructor; [|done]. intros Hin. apply Hs in Hin.
      rewrite Hpool in Hnd. by inversion Hnd.
    + intros z Hz. rewrite Hpool. apply elem_of_cons in Hz as [->|Hz].
      * left.
      * right. by apply Hs.
Qed.

(** ** The loop condition *)

Lemma py_all_values (dones : gmap string bool) :
  py_all (dict_values dones) = true
  ↔ ∀ agent_id done, dones !! agent_id = Some done -> done = true.
Proof.
  unfold py_all, dict_values. rewrite forallb_forall. split.
  - intros H a d Hd. apply H. apply list_elem_of_In.
    apply list_elem_of_fmap. exists (a, d). split; [done|].
    by apply elem_of_map_to_list.
  - intros H d Hd. apply list_elem_of_In, list_elem_of_fmap in Hd
      as ([a d'] & -> & Hin). apply elem_of_map_to_list in Hin. eauto.
Qed.

Lemma py_all_false (xs : list bool) : py_all xs = false ↔ false ∈ xs.
Proof.
  induction xs as [|[] xs IH]; cbn.
  - split; [done|]. by intros ?%elem_of_nil.
  - rewrite IH. split; [by right|]. by intros [?|?]%elem_of_cons.
  - split; [left|done].
Qed.

Lemma loop_condition_true (dones : gmap string bool) :
  loop_condition dones = true ↔ ∃ agent_id, dones !! agent_id = Some false.
Proof.
  unfold loop_condition. rewrite negb_true_iff, py_all_false.
  unfold dict_values. rewrite list_elem_of_fmap. split.
  - intros ([a d] & Hd & Hin). cbn in Hd. subst d.
    exists a. by apply elem_of_map_to_list.
  - intros [a Ha]. exists (a, false). split; [done|].
    by apply elem_of_map_to_list.
Qed.

Lemma loop_condition_false (dones : gmap string bool) :
  loop_condition dones = false
  ↔ ∀ agent_id done, dones !! agent_id = Some done -> done = true.
Proof.
  unfold loop_condition. rewrite negb_false_iff. apply py_all_values.
Qed.

(** ** The simulation loop *)

Section LoopProperties.
Context `{C : Collaborators}.

Lemma simulation_loop_done fuel agents agent_ids st tr st' :
  simulation_loop fuel agents agent_ids st = (tr, inr (Some st')) ->
  loop_condition (dones st') = false.
Proof.
  revert st tr. induction fuel as [|fuel IH]; intros st tr; cbn.
  - destruct (loop_condition (dones st)) eqn:E; [discriminate|].
    intros [= _ <-]. done.
  - destruct (loop_condition (dones st)) eqn:E.
    + destruct (loop_body agents agent_ids st) as [tr1 [e|st1]] eqn:Eb;
        cbn; [discriminate|].
      destruct (simulation_loop fuel agents agent_ids st1)
        as [tr2 r] eqn:El.
      intros [= _ ->]. by eapply IH.
    + intros [= _ <-]. done.
Qed.

(** C9.  The loop body runs once more exactly when some done flag of
    the dones mapping is false: with such a flag the loop executes the
    body and starts over, with none it stops at once; and whenever the
    loop has ended, every flag of the final dones mapping is true. *)
Theorem simulation_loop_runs_until_all_done :
  (∀ dones : gmap string bool,
      loop_condition dones = true
      ↔ ∃ agent_id, dones !! agent_id = Some false)
  ∧ (∀ fuel agents agent_ids st,
      (∃ agent_id, dones st !! agent_id = Some false) ->
      simulation_loop (S fuel) agents agent_ids st
      = bind (loop_body agents agent_ids st)
          (simulation_loop fuel agents agent_ids))
  ∧ (∀ fuel agents agent_ids st,
      (∀ agent_id done, dones st !! agent_id = Some done -> done = true) ->
      simulation_loop fuel agents agent_ids st = ret (Some st))
  ∧ (∀ fuel agents agent_ids st tr st',
      simulation_loop fuel agents agent_ids st = (tr, inr (Some st')) ->
      ∀ agent_id done, dones st' !! agent_id = Some done -> done = true).
Proof.
  split; [exact loop_condition_true|]. split; [|split].
  - intros fuel agents agent_ids st H%loop_condition_true.
    cbn. by rewrite H.
  - intros fuel agents agent_ids st H%loop_condition_false.
    destruct fuel; cbn; by rewrite H.
  - intros fuel agents agent_ids st tr st' H.
    apply loop_condition_false. by eapply simulation_loop_done.
Qed.
End LoopProperties.

(** ** Selection of the vehicles to hijack *)

Section SelectionProperties.
Context `{C : Collaborators}.
Import MainSpec.

Lemma clamp_k_outcome requested (vm : gmap string Mission.t) :
  outcome (clamp_k requested vm) = inr (Nat.min requested (size vm)).
Proof.
  unfold clamp_k. cbv zeta.
  destruct (size vm <? requested)%nat eqn:E; cbn.
  - apply Nat.ltb_lt in E. f_equal. lia.
  - apply Nat.ltb_ge in E. f_equal. lia.
Qed.

Lemma clamp_k_trace requested (vm : gmap string Mission.t) :
  trace (clamp_k requested vm)
  = if (size vm <? requested)%nat
    then [EvWarning (WarnTooFewMissions requested (size vm))]
    else [].
Proof.
  unfold clamp_k. cbv zeta. by destruct (size vm <? requested)%nat.
Qed.

Lemma select_sample_waymo history k vm rng ego :
  TrafficHistory.dataset_source history = "Waymo" ->
  TrafficHistory.ego_vehicle_id history = Some ego ->
  select_sample history k vm rng
  = ([EvAssert AssertWaymoK],
     if (k =? 1)%nat then inr ({[ pretty ego ]}, rng)
     else inl (AssertionError AssertWaymoK)).
Proof.
  intros Hs He. unfold select_sample. rewrite Hs, He.
  rewrite bool_decide_eq_true_2 by done.
  destruct (k =? 1)%nat; cbn; [|done].
  rewrite bool_decide_eq_false_2; [done|].
  intros H. apply (f_equal size) in H.
  by rewrite size_singleton, size_empty in H.
Qed.

Lemma select_sample_random history k (vm : gmap string Mission.t) rng :
  TrafficHistory.dataset_source history ≠ "Waymo"
  ∨ TrafficHistory.ego_vehicle_id history = None ->
  (k ≤ size vm)%nat ->
  ∃ pre,
    Forall (fun ev => ∃ w, ev = EvWarning w) pre
    ∧ select_sample history k vm rng
      = (pre ++ [EvRandomSample (dict_keys vm) k],
         inr (list_to_set (sample_from_pool rng (dict_keys vm) k).1,
              (sample_from_pool rng (dict_keys vm) k).2)).
Proof.
  intros Hno Hk. unfold select_sample.
  assert (Hlen : (length (dict_keys vm) <? k)%nat = false).
  { apply Nat.ltb_ge. unfold dict_keys.
    by rewrite length_fmap, length_map_to_list. }
  assert (Hrs : random_sample rng (dict_keys vm) k
                = ([], inr (sample_from_pool rng (dict_keys vm) k))).
  { unfold random_sample. by rewrite Hlen. }
  destruct (bool_decide (TrafficHistory.dataset_source history = "Waymo"))
    eqn:Ew.
  - apply bool_decide_eq_true in Ew. destruct Hno as [Hno | Hno]; [done|].
    rewrite Hno. exists [EvWarning WarnNoWaymoEgo]. split.
    + repeat constructor. eauto.
    + cbn. rewrite bool_decide_eq_true_2 by done. cbn. by rewrite Hrs.
  - exists []. split; [constructor|].
    cbn. rewrite bool_decide_eq_true_2 by done. cbn. by rewrite Hrs.
Qed.

(** C5.  When no single-ego override applies, the count used is the
    requested one clamped to the number of admissible missions, with a
    warning and no failure when it had to be lowered; the selected
    sample then consists of identifiers of admissible missions, without
    duplicates, and has exactly min(requested, admissible) members.
    This holds for every mission mapping and requested count, so in
    particular for a non-empty mapping and a positive count. *)
Theorem random_selection_without_replacement
    history requested (vm : gmap string Mission.t) rng :
  TrafficHistory.dataset_source history ≠ "Waymo"
  ∨ TrafficHistory.ego_vehicle_id history = None ->
  let k := Nat.min requested (size vm) in
  outcome (clamp_k requested vm) = inr k
  ∧ ((size vm < requested)%nat ->
     trace (clamp_k requested vm)
     = [EvWarning (WarnTooFewMissions requested (size vm))])
  ∧ ∃ sample rng',
      outcome (select_sample history k vm rng) = inr (sample, rng')
      ∧ sample ⊆ dom vm
      ∧ size sample = k
      ∧ NoDup (set_iter sample)
      ∧ length (set_iter sample) = k.
Proof.
  intros Hno k. split; [apply clamp_k_outcome|]. split.
  { intros Hlt. rewrite clamp_k_trace.
    by apply Nat.ltb_lt in Hlt as ->. }
  destruct (select_sample_random history k vm rng Hno) as (pre & _ & Hsel);
    [subst k; lia|].
  assert (Hnd : NoDup (dict_keys vm)) by apply NoDup_fst_map_to_list.
  assert (Hk : (k ≤ length (dict_keys vm))%nat).
  { unfold dict_keys. rewrite length_fmap, length_map_to_list. subst k. lia. }
  destruct (sample_from_pool_spec rng (dict_keys vm) k Hnd Hk)
    as (Hl & Hn & Hs).
  set (drawn := (sample_from_pool rng (dict_keys vm) k).1) in *.
  exists (list_to_set drawn), (sample_from_pool rng (dict_keys vm) k).2.
  assert (Hsize : size (list_to_set drawn : gset string) = k).
  { by rewrite size_list_to_set. }
  split; [by rewrite Hsel|]. split; [|split; [done|]].
  - intros x Hx%elem_of_list_to_set. apply Hs in Hx.
    apply elem_of_dom. unfold dict_keys in Hx.
    apply list_elem_of_fmap in Hx as ([y m] & -> & Hin).
    apply elem_of_map_to_list in Hin. by exists m.
  - rewrite set_iter_perm. split; [apply NoDup_elements|].
    exact Hsize.
Qed.

Lemma prepare_scenario_some scenario requested t0 min_duration t1 :
  let vm :=
    veh_missions_of
      (Scenario.history_missions_for_window scenario t0 t1 min_duration
         (custom_filter t0)) in
  vm ≠ ∅ ->
  ∃ tr,
    prepare_scenario scenario requested t0 min_duration t1
    = (tr, inr (Some (vm, Nat.min requested (size vm))))
    ∧ Forall (fun ev => ∃ w, ev = EvWarning w) tr.
Proof.
  intros vm Hvm. unfold prepare_scenario. cbv zeta. fold vm.
  rewrite bool_decide_eq_false_2 by done.
  pose proof (clamp_k_outcome requested vm) as Ho.
  pose proof (clamp_k_trace requested vm) as Ht.
  destruct (clamp_k requested vm) as [tr r].
  cbn [trace outcome fst snd] in Ho, Ht. subst r.
  destruct (TrafficHistory.last_seen_vehicle_time _);
    cbn [bind emit ret app]; eexists; (split; [reflexivity|]);
    rewrite app_nil_r, Ht; destruct (size vm <? requested)%nat;
    repeat (apply Forall_cons; split; [eauto|]); constructor.
Qed.

Lemma episode_waymo_wrong_k scenario vm k sim rng fuel ego :
  TrafficHistory.dataset_source (Scenario.traffic_history scenario) = "Waymo" ->
  TrafficHistory.ego_vehicle_id (Scenario.traffic_history scenario) = Some ego ->
  k ≠ 1%nat ->
  episode scenario vm k sim rng fuel
  = ([EvAssert AssertWaymoK], inl (AssertionError AssertWaymoK)).
Proof.
  intros Hs He Hk. unfold episode. cbv zeta.
  rewrite (select_sample_waymo _ k vm rng ego Hs He).
  by apply Nat.eqb_neq in Hk as ->.
Qed.

(** C4 (as amended).  With the single-ego dataset and its ego
    identifier present, let k be the requested count clamped to the
    number of admissible missions (lines 159-166).  If k is 1 the
    selection is exactly the singleton of the ego identifier, made
    without drawing from the random generator; if k is not 1 the
    episode stops at the assertion of line 191, and [main] raises it
    before the simulator has been reset or stepped. *)
Theorem waymo_ego_selection
    scenario requested episodes t0 min_duration t1 sim rng fuel ego :
  let history := Scenario.traffic_history scenario in
  let vm :=
    veh_missions_of
      (Scenario.history_missions_for_window scenario t0 t1 min_duration
         (custom_filter t0)) in
  let k := Nat.min requested (size vm) in
  TrafficHistory.dataset_source history = "Waymo" ->
  TrafficHistory.ego_vehicle_id history = Some ego ->
  (k = 1%nat ->
   select_sample history k vm rng
   = ([EvAssert AssertWaymoK], inr ({[ pretty ego ]}, rng)))
  ∧ (k ≠ 1%nat ->
     episode scenario vm k sim rng fuel
     = ([EvAssert AssertWaymoK], inl (AssertionError AssertWaymoK)))
  ∧ ((0 < requested)%nat -> (0 < episodes)%nat -> vm ≠ ∅ -> k ≠ 1%nat ->
     outcome (main scenario requested episodes t0 min_duration t1 sim rng fuel)
     = inl (AssertionError AssertWaymoK)
     ∧ Forall (fun ev => ¬ is_sim_event ev)
         (trace (main scenario requested episodes t0 min_duration t1
                   sim rng fuel))).
Proof.
  intros history vm k Hs He. split; [|split].
  - intros ->. by rewrite (select_sample_waymo _ _ _ _ ego Hs He).
  - intros Hk. by apply (episode_waymo_wrong_k _ _ _ _ _ _ ego).
  - intros Hr Hn Hvm Hk.
    destruct (prepare_scenario_some scenario requested t0 min_duration t1 Hvm)
      as (tr & Hprep & Htr).
    fold vm k in Hprep. unfold main.
    apply Nat.ltb_lt in Hr as ->. apply Nat.ltb_lt in Hn as Hn'.
    rewrite Hn'. destruct episodes as [|n]; [lia|].
    rewrite Hprep.
    cbn [bind py_assert ret fst snd run_episodes app].
    rewrite (episode_waymo_wrong_k scenario vm k sim rng fuel ego Hs He Hk).
    cbn. split; [done|].
    do 2 (apply Forall_cons; split; [cbn; tauto|]).
    apply Forall_app. split.
    + eapply Forall_impl; [exact Htr|]. by intros ev [w ->] [].
    + repeat (apply Forall_cons; split; [cbn; tauto|]). constructor.
Qed.
End SelectionProperties.

(** ** The step cap and the start time *)

Lemma foldl_py_max2_max (x : Qc) (xs : list Qc) :
  MainSpec.is_max_of (foldl py_max2 x xs) (x :: xs).
Proof.
  revert x. induction xs as [|y xs IH]; intros x; cbn.
  - split; [left|]. intros z ->%list_elem_of_singleton. apply Qcle_refl.
  - destruct (IH (py_max2 x y)) as [Hin Hmax]. unfold py_max2 in *.
    destruct (decide (x < y)) as [Hlt|Hge].
    + split.
      * right. done.
      * intros z [->|Hz]%elem_of_cons; [|by apply Hmax].
        apply Qcle_trans with y; [by apply Qclt_le_weak|].
        apply Hmax. left.
    + apply Qcnot_lt_le in Hge. split.
      * apply elem_of_cons in Hin as [->|Hin]; [left|]. right. by right.
      * intros z [->|[->|Hz]%elem_of_cons]%elem_of_cons.
        -- apply Hmax. left.
        -- apply Qcle_trans with x; [done|]. apply Hmax. left.
        -- apply Hmax. by right.
Qed.

Section SetupProperties.
Context `{C : Collaborators}.
Import MainSpec.

Lemma budgets_loop history (exit : string -> Qc) l acc :
  (∀ v, v ∈ l -> TrafficHistory.vehicle_final_exit_time history v
                 = Some (exit v)) ->
  for_each l acc (fun acc veh_id =>
    match TrafficHistory.vehicle_final_exit_time history veh_id with
    | Some t => ret (acc ++ [t / tenth])
    | None => raise TypeError
    end)
  = ([], inr (acc ++ ((fun v => exit v / tenth) <$> l))).
Proof.
  revert acc. induction l as [|v l IH]; intros acc H; cbn.
  - by rewrite app_nil_r.
  - rewrite (H v) by left. cbn. rewrite IH by (intros; apply H; by right).
    by rewrite <-app_assoc.
Qed.

Lemma budgets_trace history l acc :
  trace (for_each l acc (fun acc veh_id =>
    match TrafficHistory.vehicle_final_exit_time history veh_id with
    | Some t => ret (acc ++ [t / tenth])
    | None => raise TypeError
    end)) = [].
Proof.
  revert acc. induction l as [|v l IH]; intros acc; cbn; [done|].
  rewrite trace_bind.
  destruct (TrafficHistory.vehicle_final_exit_time history v); cbn; [|done].
  apply IH.
Qed.

Lemma max_episode_steps_trace history sample :
  trace (max_episode_steps history sample) = [].
Proof.
  unfold max_episode_steps. rewrite trace_bind, budgets_trace. cbn.
  destruct (outcome _) as [e|[|x xs]]; done.
Qed.

Lemma max_episode_steps_value history sample (exit : string -> Qc) :
  sample ≠ ∅ ->
  (∀ v, v ∈ sample -> TrafficHistory.vehicle_final_exit_time history v
                      = Some (exit v)) ->
  ∃ cap,
    max_episode_steps history sample = ([], inr cap)
    ∧ is_max_of cap ((fun v => exit v / dec 1 10) <$> elements sample).
Proof.
  intros Hne Hex. unfold max_episode_steps.
  rewrite (budgets_loop history exit).
  2:{ intros v Hv. apply Hex. rewrite set_iter_perm in Hv.
      by apply elem_of_elements. }
  cbn [bind app].
  assert (Hperm : (fun v => exit v / tenth) <$> set_iter sample
                  ≡ₚ (fun v => exit v / dec 1 10) <$> elements sample).
  { by rewrite set_iter_perm. }
  destruct ((fun v => exit v / tenth) <$> set_iter sample) as [|x xs] eqn:E.
  - exfalso. apply Permutation_nil_l in Hperm.
    symmetry in Hperm. apply fmap_nil_inv in Hperm.
    apply elements_empty_inv, leibniz_equiv in Hperm. done.
  - exists (foldl py_max2 x xs). cbn. split; [done|].
    destruct (foldl_py_max2_max x xs) as [Hin Hmax]. split.
    + by rewrite <-Hperm.
    + intros z Hz. apply Hmax. by rewrite Hperm.
Qed.

Lemma select_sample_no_build history k vm rng :
  Forall (fun ev => ¬ is_build_event ev)
    (trace (select_sample history k vm rng)).
Proof.
  unfold select_sample, random_sample.
  destruct (bool_decide (TrafficHistory.dataset_source history = "Waymo"));
    [destruct (TrafficHistory.ego_vehicle_id history);
     [destruct (k =? 1)%nat|]|];
    cbn -[Nat.ltb]; repeat (destruct (bool_decide _); cbn -[Nat.ltb]);
    repeat (destruct (_ <? _)%nat; cbn -[Nat.ltb]);
    repeat (apply Forall_cons; split; [cbn; tauto|]); constructor.
Qed.

(** C1 (as amended).  The step cap is the maximum, over the selected
    vehicle identifiers, of vehicle_final_exit_time(vehicle_id) divided
    by the constant 0.1, whatever tick length the simulator reports; so
    it is the maximum of vehicle_final_exit_time(vehicle_id) / dt
    whenever the simulator's tick dt is 0.1.  In an episode it is
    pushed into the agent configuration before any agent is built. *)
Theorem step_cap_is_max_exit_time_over_tenth
    scenario (vm : gmap string Mission.t) k sim rng fuel :
  let history := Scenario.traffic_history scenario in
  (∀ sample (exit : string -> Qc),
      sample ≠ ∅ ->
      (∀ v, v ∈ sample -> TrafficHistory.vehicle_final_exit_time history v
                          = Some (exit v)) ->
      ∃ cap,
        max_episode_steps history sample = ([], inr cap)
        ∧ is_max_of cap ((fun v => exit v / dec 1 10) <$> elements sample)
        ∧ (fixed_timestep_sec sim = dec 1 10 ->
           is_max_of cap
             ((fun v => exit v / fixed_timestep_sec sim) <$> elements sample)))
  ∧ ∃ pre rest,
      trace (episode scenario vm k sim rng fuel) = pre ++ rest
      ∧ Forall (fun ev => ¬ is_build_event ev) pre
      ∧ (rest = []
         ∨ ∃ sample rng' cap rest',
             outcome (select_sample history k vm rng) = inr (sample, rng')
             ∧ outcome (max_episode_steps history sample) = inr cap
             ∧ rest = EvSetMaxEpisodeSteps cap :: rest').
Proof.
  intros history. split.
  { intros sample exit Hne Hex.
    destruct (max_episode_steps_value history sample exit Hne Hex)
      as (cap & Hrun & Hmax).
    exists cap. split; [done|]. split; [done|]. by intros ->. }
  pose proof (select_sample_no_build history k vm rng) as Hnb.
  unfold episode. cbv zeta. fold history. rewrite trace_bind.
  destruct (select_sample history k vm rng) as [tr1 [e|[sample rng']]];
    cbn [trace outcome fst snd] in *.
  { exists tr1, []. split; [done|]. split; [done|]. by left. }
  rewrite trace_bind, max_episode_steps_trace.
  destruct (max_episode_steps history sample) as [tr2 [e|cap]] eqn:E2;
    cbn [trace outcome fst snd app].
  { exists tr1, []. split; [done|]. split; [done|]. by left. }
  rewrite trace_bind. cbn [emit trace outcome fst snd app].
  eexists tr1, _. split; [reflexivity|]. split; [done|]. right.
  eexists sample, rng', cap, _. split; [done|].
  split; [by rewrite E2|]. reflexivity.
Qed.
End SetupProperties.

(** ** The common start time *)

(** The running minimum that lines 218-222 are after. *)
Lemma foldl_min_is_min (x : Qc) (xs : list Qc) :
  MainSpec.is_min_of
    (foldl (fun m y => if decide (y < m) then y else m) x xs) (x :: xs).
Proof.
  revert x. induction xs as [|y xs IH]; intros x; cbn.
  - split; [left|]. intros z ->%list_elem_of_singleton. apply Qcle_refl.
  - destruct (IH (if decide (y < x) then y else x)) as [Hin Hmin].
    destruct (decide (y < x)) as [Hlt|Hge].
    + split.
      * by right.
      * intros z [->|Hz]%elem_of_cons; [|by apply Hmin].
        apply Qcle_trans with y; [apply Hmin; left|by apply Qclt_le_weak].
    + apply Qcnot_lt_le in Hge. split.
      * apply elem_of_cons in Hin as [->|Hin]; [left|]. right. by right.
      * intros z [->|[->|Hz]%elem_of_cons]%elem_of_cons.
        -- apply Hmin. left.
        -- apply Qcle_trans with x; [apply Hmin; left|done].
        -- apply Hmin. by right.
Qed.

Section StartTimeProperties.
Context `{C : Collaborators}.
Import MainSpec.

(** As long as no start time met so far is zero, one pass of the loop
    keeps the smaller of the running value and the mission's start. *)
Lemma assign_slots_loop (vm : gmap string Mission.t) (start : string -> Qc)
    l s t0 :
  (∀ v, v ∈ l -> ∃ m, vm !! v = Some m ∧ Mission.start_time m = start v) ->
  (∀ v, v ∈ l -> start v ≠ 0) ->
  history_start_time s = Some t0 -> t0 ≠ 0 ->
  ∃ s', for_each l s (assign_slot vm) = ([], inr s')
        ∧ history_start_time s'
          = Some (foldl (fun m y => if decide (y < m) then y else m) t0
                    (start <$> l)).
Proof.
  revert s t0. induction l as [|v l IH]; intros s t0 Hm Hnz Hs Ht0; cbn.
  - by exists s.
  - destruct (Hm v) as (m & Hv & Hst); [left|].
    unfold assign_slot at 1. unfold getitem. rewrite Hv.
    cbn [bind ret app]. rewrite Hs. cbn [not_ lt_start].
    rewrite (bool_decide_eq_false_2 (t0 = 0)) by done. cbn [orb].
    rewrite Hst.
    match goal with
    | |- context [for_each l ?s1 _] =>
        destruct (IH s1 (if decide (start v < t0) then start v else t0))
          as (s' & Hfe & Hs')
    end.
    + intros; apply Hm; by right.
    + intros; apply Hnz; by right.
    + cbn. by destruct (decide (start v < t0));
        [rewrite bool_decide_eq_true_2|rewrite bool_decide_eq_false_2].
    + destruct (decide (start v < t0)); [apply Hnz; left|done].
    + exists s'. rewrite Hfe. by split.
Qed.

(** X14.  When none of the selected missions starts at time 0, the
    slot loop completes and the common start time is the minimum of
    their start times. *)
Lemma history_start_time_is_min_when_nonzero
    (vm : gmap string Mission.t) (start : string -> Qc) sample :
  sample ≠ ∅ ->
  (∀ v, v ∈ sample -> ∃ m, vm !! v = Some m ∧ Mission.start_time m = start v) ->
  (∀ v, v ∈ sample -> start v ≠ 0) ->
  ∃ slots t,
    assign_slots vm sample = ([], inr slots)
    ∧ history_start_time slots = Some t
    ∧ is_min_of t (start <$> elements sample).
Proof.
  intros Hne Hm Hnz. unfold assign_slots.
  assert (Hin : ∀ v, v ∈ set_iter sample -> v ∈ sample).
  { intros v Hv. rewrite set_iter_perm in Hv. by apply elem_of_elements. }
  pose proof (set_iter_perm sample) as Hperm.
  destruct (set_iter sample) as [|v l] eqn:E.
  { symmetry in Hperm. apply Permutation_nil_r in Hperm.
    apply elements_empty_inv, leibniz_equiv in Hperm. done. }
  cbn [for_each]. destruct (Hm v) as (m & Hv & Hst); [apply Hin; left|].
  unfold assign_slot at 1. unfold getitem. rewrite Hv.
  cbn [bind ret app history_start_time not_ orb]. rewrite Hst.
  match goal with
  | |- context [for_each l ?s1 _] =>
      destruct (assign_slots_loop vm start l s1 (start v))
        as (s' & Hfe & Hs')
  end.
  - intros; apply Hm, Hin; by right.
  - intros; apply Hnz, Hin; by right.
  - done.
  - apply Hnz, Hin. left.
  - exists s'. eexists. rewrite Hfe. split; [done|]. split; [exact Hs'|].
    destruct (foldl_min_is_min (start v) (start <$> l)) as [H1 H2].
    assert (Hp : start <$> elements sample ≡ₚ start v :: (start <$> l)).
    { rewrite <-Hperm. done. }
    split.
    + by rewrite Hp.
    + intros z Hz. apply H2. by rewrite <-Hp.
Qed.
End StartTimeProperties.

(** C2.  The code at a selection where the claim fails: A starts at
    time 0 and B at time 5, and the set is iterated A first.  After A
    the running start time is 0, which line 219 takes for "not set
    yet", so B's start time replaces it: the loop ends with 5, the
    simulator is reset at 4.9, and the minimum, 0, is lost. *)
Theorem start_time_zero_is_overwritten :
  let W := Demo.world Demo.all_files in
  @set_iter W {[ "A"; "B" ]} = ["A"; "B"]
  ∧ MainSpec.is_min_of 0 [Mission.start_time (Mission.mk "A" 0);
                          Mission.start_time (Mission.mk "B" (dec 5 1))]
  ∧ (∃ slots,
        outcome (@assign_slots W Demo.missions_AB {[ "A"; "B" ]}) = inr slots
        ∧ history_start_time slots = Some (dec 5 1))
  ∧ EvReset (dec 49 10)
    ∈ trace (@episode W Demo.scenarioAB Demo.missions_AB 2
               (Demo.sim0 tenth) Demo.rng0 10).
Proof.
  cbv zeta. split; [vm_compute; reflexivity|]. split; [|split].
  - split; [left|]. cbn.
    intros x [->|[->|[]%elem_of_nil]%elem_of_cons]%elem_of_cons; by vm_compute.
  - eexists. split; [vm_compute; reflexivity|]. vm_compute. reflexivity.
  - apply list_elem_of_lookup. exists 6%nat. vm_compute. reflexivity.
Qed.

(** ** The statements on the concrete world *)

Lemma step_cap_is_max_exit_time_over_tenth_witness :
  let W := Demo.world Demo.all_files in
  let sim := Demo.sim0 tenth in
  ∃ cap,
    @max_episode_steps W (Demo.history "NGSIM" None (dec 10 1)) {[ "A"; "B" ]}
    = ([], inr cap)
    ∧ MainSpec.is_max_of cap
        ((fun _ => dec 10 1 / dec 1 10) <$> elements ({[ "A"; "B" ]} : gset string))
    ∧ MainSpec.is_max_of cap
        ((fun _ => dec 10 1 / @fixed_timestep_sec W sim)
           <$> elements ({[ "A"; "B" ]} : gset string)).
Proof.
  cbv zeta.
  destruct (@step_cap_is_max_exit_time_over_tenth (Demo.world Demo.all_files)
              Demo.scenarioAB Demo.missions_AB 2 (Demo.sim0 tenth) Demo.rng0 10)
    as [H _].
  destruct (H {[ "A"; "B" ]} (fun _ => dec 10 1)) as (cap & Hrun & Hmax & Hdt).
  - intros E. apply (f_equal size) in E. vm_compute in E. discriminate.
  - intros v _. reflexivity.
  - exists cap. split; [exact Hrun|]. split; [exact Hmax|].
    apply Hdt. reflexivity.
Defined.

(** C1 as stated fails for a simulator that reports a tick of 0.05: B
    leaves at time 10, which is 200 ticks, and the cap pushed into the
    configuration is 100. *)
Lemma step_cap_ignores_tick_counterexample :
  let W := Demo.world Demo.all_files in
  let sim := Demo.sim0 (dec 1 20) in
  let history := Scenario.traffic_history Demo.scenarioAB in
  @fixed_timestep_sec W sim = dec 1 20
  ∧ (∀ v, TrafficHistory.vehicle_final_exit_time history v = Some (dec 10 1))
  ∧ MainSpec.is_max_of (dec 200 1)
      ((fun _ => dec 10 1 / @fixed_timestep_sec W sim)
         <$> elements ({[ "A"; "B" ]} : gset string))
  ∧ @max_episode_steps W history {[ "A"; "B" ]} = ([], inr (dec 100 1))
  ∧ EvSetMaxEpisodeSteps (dec 100 1)
    ∈ trace (@episode W Demo.scenarioAB Demo.missions_AB 2 sim Demo.rng0 10)
  ∧ dec 100 1 ≠ dec 200 1.
Proof.
  cbv zeta. split; [reflexivity|]. split; [reflexivity|]. split; [|split; [|split]].
  - assert (E : dec 10 1 / @fixed_timestep_sec (Demo.world Demo.all_files)
                             (Demo.sim0 (dec 1 20)) = dec 200 1) by qc_eq.
    rewrite E. split.
    + apply list_elem_of_fmap. exists "A". split; [done|].
      apply elem_of_elements. set_solver.
    + intros x (? & -> & _)%list_elem_of_fmap. apply Qcle_refl.
  - vm_compute. reflexivity.
  - apply list_elem_of_lookup. exists 1%nat. vm_compute. reflexivity.
  - intros H. apply (f_equal this) in H. vm_compute in H. discriminate.
Qed.

Lemma waymo_ego_selection_witness :
  select_sample (Scenario.traffic_history Demo.waymo7) 1
    (veh_missions_of [Demo.mission7]) Demo.rng0
  = ([EvAssert AssertWaymoK], inr ({[ "7" ]}, Demo.rng0))
  ∧ outcome (@main (Demo.world Demo.all_files) Demo.waymo78 2 1
               (dec 40 1) (dec 10 1) (dec 80 1) (Demo.sim0 tenth) Demo.rng0 10)
    = inl (AssertionError AssertWaymoK).
Proof.
  split.
  - destruct (@waymo_ego_selection (Demo.world Demo.all_files) Demo.waymo7
                1 1 (dec 40 1) (dec 10 1) (dec 80 1) (Demo.sim0 tenth)
                Demo.rng0 10 7%Z eq_refl eq_refl) as (H & _ & _).
    apply H. vm_compute. reflexivity.
  - destruct (@waymo_ego_selection (Demo.world Demo.all_files) Demo.waymo78
                2 1 (dec 40 1) (dec 10 1) (dec 80 1) (Demo.sim0 tenth)
                Demo.rng0 10 7%Z eq_refl eq_refl) as (_ & _ & H).
    apply H.
    + apply Nat.lt_0_succ.
    + apply Nat.lt_0_succ.
    + intros E. apply (f_equal size) in E. vm_compute in E. discriminate.
    + vm_compute. discriminate.
Defined.

(** C4 as stated fails when the requested count is above 1 and a single
    mission is admissible: 2 is requested, line 166 lowers k to 1, the
    assertion of line 191 passes, and the run goes on with the ego
    vehicle alone. *)
Lemma waymo_clamped_request_counterexample :
  let W := Demo.world Demo.all_files in
  let run := @main W Demo.waymo7 2 1 (dec 40 1) (dec 10 1) (dec 80 1)
               (Demo.sim0 tenth) Demo.rng0 10 in
  TrafficHistory.dataset_source (Scenario.traffic_history Demo.waymo7) = "Waymo"
  ∧ TrafficHistory.ego_vehicle_id (Scenario.traffic_history Demo.waymo7) = Some 7%Z
  ∧ 2%nat ≠ 1%nat
  ∧ take 4 (trace run)
    = [EvAssert AssertReplace; EvAssert AssertEpisodes;
       EvWarning (WarnTooFewMissions 2 1); EvAssert AssertWaymoK]
  ∧ (∃ sim', outcome run = inr (Some sim'))
  ∧ ¬ ∃ a, outcome run = inl (AssertionError a).
Proof.
  cbv zeta. split; [reflexivity|]. split; [reflexivity|]. split; [lia|].
  split; [vm_compute; reflexivity|].
  assert (H : ∃ sim', outcome (@main (Demo.world Demo.all_files) Demo.waymo7
                                 2 1 (dec 40 1) (dec 10 1) (dec 80 1)
                                 (Demo.sim0 tenth) Demo.rng0 10)
                      = inr (Some sim')).
  { eexists. vm_compute. reflexivity. }
  split; [exact H|]. destruct H as [sim' H]. intros [a Ha].
  rewrite H in Ha. discriminate.
Qed.

Lemma random_selection_without_replacement_witness :
  let W := Demo.world Demo.all_files in
  let k := Nat.min 3 (size Demo.missions_AB) in
  outcome (clamp_k 3 Demo.missions_AB) = inr k
  ∧ ((size Demo.missions_AB < 3)%nat ->
     trace (clamp_k 3 Demo.missions_AB)
     = [EvWarning (WarnTooFewMissions 3 (size Demo.missions_AB))])
  ∧ ∃ sample rng',
      outcome (select_sample (Scenario.traffic_history Demo.scenarioAB) k
                 Demo.missions_AB Demo.rng0) = inr (sample, rng')
      ∧ sample ⊆ dom Demo.missions_AB
      ∧ size sample = k
      ∧ NoDup (@set_iter W sample)
      ∧ length (@set_iter W sample) = k.
Proof.
  apply (@random_selection_without_replacement (Demo.world Demo.all_files)).
  left. discriminate.
Defined.

Lemma simulation_loop_runs_until_all_done_witness :
  ∃ tr st',
    @simulation_loop (Demo.world Demo.all_files) 5 Demo.crew0 ["a"] Demo.loop0
    = (tr, inr (Some st'))
    ∧ ∀ agent_id done, dones st' !! agent_id = Some done -> done = true.
Proof.
  destruct (@simulation_loop (Demo.world Demo.all_files) 5 Demo.crew0 ["a"] Demo.loop0)
    as [tr [e|[st'|]]] eqn:E.
  - did_not_raise E.
  - exists tr, st'. split; [reflexivity|].
    destruct (@simulation_loop_runs_until_all_done (Demo.world Demo.all_files))
      as (_ & _ & _ & H).
    exact (H _ _ _ _ _ _ E).
  - did_not_run_out E.
Defined.

(** * Further properties *)

(** ** The monad, continued *)

Lemma outcome_bind {A B} (m : Py A) (f : A -> Py B) :
  outcome (bind m f)
  = match outcome m with
    | inr a => outcome (f a)
    | inl e => inl e
    end.
Proof. destruct m as [tr [e|a]]; cbn; [done|]. by destruct (f a). Qed.

Lemma outcome_bind_raise {A B} (m : Py A) (f : A -> Py B) e :
  outcome m = inl e -> outcome (bind m f) = inl e.
Proof. intros H. by rewrite outcome_bind, H. Qed.

(** ** [act]: when it returns, and in which order it checks *)

Lemma data_truthy_true d :
  data_truthy d = true ↔ ∃ m : series, d = Some m ∧ m ≠ ∅.
Proof.
  unfold data_truthy. destruct d as [m|].
  - rewrite negb_true_iff, bool_decide_eq_false. split.
    + intros H. by exists m.
    + by intros (m' & [= <-] & H).
  - split; [done|]. by intros (m & ? & _).
Qed.

Lemma act_absent self obs (d : series) :
  _data self = Some d -> d ≠ ∅ ->
  d !! ActSpec.quantized_time self obs = None ->
  act self obs = ([EvAssert AssertData], inr neutral).
Proof.
  intros Hd Hne Hk. unfold act.
  rewrite Hd, (data_truthy_nonempty _ Hne).
  unfold ActSpec.quantized_time in Hk. cbn [bind py_assert]. by rewrite Hk.
Qed.

(** X1.  [act] returns a control input exactly when the loaded series
    is a non-empty mapping and either has no record under the quantized
    time of the observation or has one that passes the four tolerance
    checks; and the only exception [act] ever raises is an
    AssertionError. *)
Theorem act_returns_iff self obs :
  ((∃ a, outcome (act self obs) = inr a)
   ↔ ∃ d : series,
       _data self = Some d ∧ d ≠ ∅
       ∧ match d !! ActSpec.quantized_time self obs with
         | None => True
         | Some exp =>
             ActSpec.within_tolerance (Observation.ego_vehicle_state obs) exp
             = true
         end)
  ∧ (∀ e, outcome (act self obs) = inl e -> ∃ a, e = AssertionError a).
Proof.
  destruct (data_truthy (_data self)) eqn:Et.
  - apply data_truthy_true in Et as (d & Hd & Hne).
    destruct (d !! ActSpec.quantized_time self obs) as [exp|] eqn:Hk.
    + pose proof (act_present self obs d exp Hd Hk) as Hact.
      cbv zeta in Hact. rewrite Hact. clear Hact. split.
      * split.
        -- intros [a Ha]. exists d. rewrite Hk. split; [done|]. split; [done|].
           destruct (ActSpec.within_tolerance _ exp); [done|].
           repeat (destruct (negb _); [discriminate|]). discriminate.
        -- intros (d' & Hd' & _ & Hw). rewrite Hd in Hd'.
           injection Hd' as <-. rewrite Hk in Hw. rewrite Hw. eauto.
      * intros e He. destruct (ActSpec.within_tolerance _ exp); [discriminate|].
        repeat (destruct (negb _); [injection He as <-; eauto|]).
        injection He as <-; eauto.
    + rewrite (act_absent self obs d Hd Hne Hk).
      cbn. split; [|discriminate]. split; [|eauto].
      intros _. exists d. by rewrite Hk.
  - rewrite (act_unloaded _ _ Et). cbn. split.
    + split; [by intros [a Ha]|].
      intros (d & Hd & Hne & _). rewrite Hd in Et.
      by rewrite (data_truthy_nonempty d Hne) in Et.
    + intros e [= <-]. eauto.
Qed.

Lemma act_checks_in_order_aux self obs :
  trace (act self obs) `prefix_of` Further.all_checks.
Proof.
  unfold act, Further.all_checks.
  destruct (data_truthy (_data self)); cbn [bind py_assert]; [|by eexists].
  destruct (_ !! _) as [exp|]; [|by eexists].
  repeat (match goal with
          | |- context [math_isclose ?a ?b ?c ?t] =>
              destruct (math_isclose a b c t)
          end; cbn [bind py_assert]);
    try match goal with |- context [?d !! ?k] => destruct (d !! k) end;
    cbn; by eexists.
Qed.

(** X2.  [act] evaluates its assertions in the fixed order data,
    heading, speed, x, y and stops at the first one that fails: the
    assertions evaluated always form an initial segment of that list,
    the one raised is the last one evaluated, and a control input taken
    from a matching record has been through all five. *)
Theorem act_checks_in_order self obs :
  trace (act self obs) `prefix_of` Further.all_checks
  ∧ (∀ a, outcome (act self obs) = inl (AssertionError a) ->
          last (trace (act self obs)) = Some (EvAssert a))
  ∧ (∀ (d : series) exp r,
        _data self = Some d ->
        d !! ActSpec.quantized_time self obs = Some exp ->
        outcome (act self obs) = inr r ->
        trace (act self obs) = Further.all_checks).
Proof.
  unfold act, ActSpec.quantized_time, Further.all_checks.
  destruct (_data self) as [d|]; cbn [data_truthy].
  2:{ cbn. split; [by eexists|]. split; [by intros a [= <-]|]. discriminate. }
  destruct (bool_decide (d = ∅)) eqn:E; cbn [negb bind py_assert].
  { cbn. split; [by eexists|]. split; [by intros a [= <-]|]. discriminate. }
  destruct (d !! _) as [exp|] eqn:Hk.
  2:{ cbn. split; [by eexists|]. split; [discriminate|].
      intros d0 exp r [= <-] H. rewrite Hk in H. discriminate. }
  repeat (match goal with
          | |- context [math_isclose ?a ?b ?c ?t] =>
              destruct (math_isclose a b c t)
          end; cbn [bind py_assert]);
    try match goal with |- context [d !! ?k] => destruct (d !! k) end;
    cbn; (split; [by eexists|]); (split; [by intros a [= <-]|]);
    try discriminate; done.
Qed.

(** X3.  With a record for the observed tick, every live state whose
    heading, speed, x and y have a difference from the recorded values,
    computed in binary64 arithmetic as [math.isclose] computes it, of
    at most 1e-2, 0.2, 2 and 2 is accepted, and [act] returns the next
    control input.  No condition on the values is needed: a difference
    computed from an infinity or a NaN is at most no limit. *)
Theorem act_accepts_within_limits self obs (d : series) exp :
  _data self = Some d ->
  d !! ActSpec.quantized_time self obs = Some exp ->
  Further.within_limits (Observation.ego_vehicle_state obs) exp ->
  outcome (act self obs) = inr (ActSpec.next_control self obs d).
Proof.
  intros Hd Hk (Hh & Hs & Hx & Hy).
  pose proof (act_present self obs d exp Hd Hk) as Hact. cbv zeta in Hact.
  unfold ActSpec.within_tolerance in Hact.
  by rewrite (math_isclose_within _ _ _ _ Hh I),
    (math_isclose_within _ _ _ _ Hs I), (math_isclose_within _ _ _ _ Hx I),
    (math_isclose_within _ _ _ _ Hy I) in Hact.
Qed.

Lemma act_accepts_within_limits_witness :
  outcome (act (Demo.agent (Some Demo.two_ticks) 0)
             (Demo.obs_at (dec 40 1) Cases.near))
  = inr (Recorded.acceleration Demo.rec1, Recorded.angular_velocity Demo.rec1).
Proof.
  rewrite (act_accepts_within_limits _ _ Demo.two_ticks Demo.rec0).
  - vm_compute. reflexivity.
  - reflexivity.
  - vm_compute. reflexivity.
  - repeat split; vm_compute; reflexivity.
Defined.

(** ** The data file of a vehicle *)

Lemma list_ascii_of_string_app (s1 s2 : string) :
  String.list_ascii_of_string (s1 +:+ s2)
  = String.list_ascii_of_string s1 ++ String.list_ascii_of_string s2.
Proof. induction s1 as [|a s1 IH]; simpl; [done|]. by rewrite IH. Qed.

Lemma string_app_inj_r (s s1 s2 : string) : s1 +:+ s = s2 +:+ s -> s1 = s2.
Proof.
  intros H. apply (f_equal String.list_ascii_of_string) in H.
  rewrite !list_ascii_of_string_app in H. apply app_inv_tail in H.
  apply (f_equal String.string_of_list_ascii) in H.
  by rewrite !String.string_of_list_ascii_of_string in H.
Qed.

(** X4.  Within one scenario and traffic history, different vehicle
    identifiers name different data files, so no two agents of an
    episode read the same file; across scenarios the file name does not
    determine the scenario and history names, since both are joined by
    an underscore. *)
Theorem datafile_separates_vehicles :
  (∀ scenario_name history_name v1 v2,
      datafile scenario_name history_name v1
      = datafile scenario_name history_name v2 -> v1 = v2)
  ∧ ∃ s1 h1 s2 h2 v,
      (s1, h1) ≠ (s2, h2) ∧ datafile s1 h1 v = datafile s2 h2 v.
Proof.
  split.
  - intros sn hn v1 v2 H. unfold datafile in H.
    do 5 apply (inj (String.append _)) in H.
    by apply string_app_inj_r in H.
  - exists "a_b", "c", "a", "b_c", "1". split; [discriminate|reflexivity].
Qed.

(** ** The custom filter as a list operation *)

(** X5.  Filtering is idempotent, works window by window (the filter of
    a concatenation is the concatenation of the filters, so an empty
    history yields an empty result), and never returns more windows than
    it was given. *)
Theorem custom_filter_idempotent_app t0 :
  (∀ vehs, custom_filter t0 (custom_filter t0 vehs) = custom_filter t0 vehs)
  ∧ (∀ l1 l2, custom_filter t0 (l1 ++ l2)
              = custom_filter t0 l1 ++ custom_filter t0 l2)
  ∧ custom_filter t0 [] = []
  ∧ (∀ vehs, (length (custom_filter t0 vehs) ≤ length vehs)%nat).
Proof.
  unfold custom_filter. cbv zeta. split; [|split; [|split]].
  - intros vehs. rewrite list_filter_filter. apply list_filter_iff.
    intros v. tauto.
  - intros l1 l2. apply filter_app.
  - reflexivity.
  - intros vehs. apply length_filter.
Qed.

(** X6.  Any two windows that pass the filter start less than 8 time
    units apart, whatever [exists_at_or_after] is: each is less than 4
    away from it. *)
Theorem custom_filter_start_times_close t0 vehs v1 v2 :
  v1 ∈ custom_filter t0 vehs ->
  v2 ∈ custom_filter t0 vehs ->
  Qcabs (VehicleWindow.start_time v1 - VehicleWindow.start_time v2) < dec 8 1.
Proof.
  unfold custom_filter. cbv zeta. rewrite !list_elem_of_filter.
  unfold start_window, Qc4. intros [[_ H1] _] [[_ H2] _].
  set (a := VehicleWindow.start_time v1) in *.
  set (b := VehicleWindow.start_time v2) in *.
  rewrite (Qcabs_Qcminus b t0) in H2.
  replace (a - b) with ((a - t0) + (t0 - b)) by ring.
  eapply Qcle_lt_trans; [apply Qcabs_triangle|].
  replace (dec 8 1) with (dec 4 1 + dec 4 1) by qc_eq.
  eapply Qclt_trans.
  - apply Qcplus_lt_mono_r. exact H1.
  - apply Qcplus_lt_mono_l. exact H2.
Qed.

Lemma custom_filter_start_times_close_witness :
  Qcabs (VehicleWindow.start_time Demo.winA - VehicleWindow.start_time Cases.winC)
  < dec 8 1.
Proof.
  assert (E : custom_filter (dec 40 1) [Demo.winA; Demo.winB; Cases.winC]
              = [Demo.winA; Cases.winC]) by (vm_compute; reflexivity).
  apply (custom_filter_start_times_close (dec 40 1)
           [Demo.winA; Demo.winB; Cases.winC]); rewrite E.
  - left.
  - right. left.
Defined.

(** ** The missions dictionary *)

Lemma veh_missions_of_snoc missions mission :
  veh_missions_of (missions ++ [mission])
  = <[Mission.veh_id mission := mission]> (veh_missions_of missions).
Proof. unfold veh_missions_of. by rewrite foldl_app. Qed.

(** X7.  The dictionary built at lines 146-151 files every mission
    under its own vehicle identifier: each entry is a mission of the
    list stored under that mission's identifier, every mission's
    identifier is a key, a later mission replaces an earlier one with
    the same identifier, and there are at most as many entries as
    missions. *)
Theorem veh_missions_keyed_by_vehicle missions :
  (∀ key m, veh_missions_of missions !! key = Some m ->
            Mission.veh_id m = key ∧ m ∈ missions)
  ∧ (∀ m, m ∈ missions ->
          is_Some (veh_missions_of missions !! Mission.veh_id m))
  ∧ (∀ m, veh_missions_of (missions ++ [m]) !! Mission.veh_id m = Some m)
  ∧ (size (veh_missions_of missions) ≤ length missions)%nat.
Proof.
  split; [|split; [|split]].
  - induction missions as [|m0 ms IH] using rev_ind; intros key m.
    + unfold veh_missions_of. cbn. by rewrite lookup_empty.
    + rewrite veh_missions_of_snoc.
      destruct (decide (Mission.veh_id m0 = key)) as [<-|Hne].
      * rewrite lookup_insert_eq. intros [= <-]. split; [done|].
        apply elem_of_app. right. left.
      * rewrite lookup_insert_ne by done. intros H.
        destruct (IH _ _ H) as [? ?]. split; [done|].
        apply elem_of_app. by left.
  - induction missions as [|m0 ms IH] using rev_ind; intros m Hm.
    + by apply elem_of_nil in Hm.
    + rewrite veh_missions_of_snoc.
      destruct (decide (Mission.veh_id m0 = Mission.veh_id m)) as [->|Hne].
      * rewrite lookup_insert_eq. eauto.
      * rewrite lookup_insert_ne by done. apply IH.
        apply elem_of_app in Hm as [Hm|Hm]; [done|].
        apply list_elem_of_singleton in Hm. by subst.
  - intros m. rewrite veh_missions_of_snoc. apply lookup_insert_eq.
  - induction missions as [|m0 ms IH] using rev_ind.
    + unfold veh_missions_of. cbn. by rewrite map_size_empty.
    + rewrite veh_missions_of_snoc, length_app. cbn.
      rewrite map_size_insert.
      destruct (veh_missions_of ms !! Mission.veh_id m0); unfold id; lia.
Qed.

(** ** Preparing a scenario and selecting vehicles *)

Section FurtherSelection.
Context `{C : Collaborators}.

Lemma set_iter_singleton (x : string) : set_iter {[ x ]} = [x].
Proof.
  pose proof (set_iter_perm {[ x ]}) as H. rewrite elements_singleton in H.
  by apply Permutation_singleton_r in H.
Qed.

(** X8.  Preparing a scenario never raises and logs warnings only.  A
    scenario without admissible missions is skipped, with the warning
    of line 154; otherwise the missions are kept together with the
    requested count clamped to their number, which for a positive
    request lies between 1 and the number of missions. *)
Theorem prepare_scenario_skips_or_clamps
    (scenario : Scenario.t) requested t0 min_duration t1 :
  let vm :=
    veh_missions_of
      (Scenario.history_missions_for_window scenario t0 t1 min_duration
         (custom_filter t0)) in
  let run := prepare_scenario scenario requested t0 min_duration t1 in
  Forall (fun ev => ∃ w, ev = EvWarning w) (trace run)
  ∧ (vm = ∅ ->
     outcome run = inr None
     ∧ last (trace run) = Some (EvWarning WarnNoMissions))
  ∧ (vm ≠ ∅ ->
     ∃ k, outcome run = inr (Some (vm, k))
          ∧ k = Nat.min requested (size vm)
          ∧ ((1 ≤ requested)%nat -> (1 ≤ k ≤ size vm)%nat)).
Proof.
  intros vm run. subst run.
  destruct (decide (vm = ∅)) as [He|Hne].
  - assert (Hrun : ∃ pre,
               prepare_scenario scenario requested t0 min_duration t1
               = (pre ++ [EvWarning WarnNoMissions], inr None)
               ∧ Forall (fun ev => ∃ w, ev = EvWarning w) pre).
    { unfold prepare_scenario. cbv zeta. fold vm.
      rewrite bool_decide_eq_true_2 by done.
      destruct (TrafficHistory.last_seen_vehicle_time _); cbn.
      - exists []. split; [done|]. constructor.
      - exists [EvWarning WarnNoVehicles]. split; [done|].
        repeat constructor. eauto. }
    destruct Hrun as (pre & -> & Hpre). cbn [trace outcome fst snd].
    split; [|split].
    + apply Forall_app. split; [done|]. repeat constructor. eauto.
    + intros _. split; [done|]. apply last_snoc.
    + done.
  - destruct (prepare_scenario_some scenario requested t0 min_duration t1 Hne)
      as (tr & Hrun & Htr). fold vm in Hrun. rewrite Hrun.
    cbn [trace outcome fst snd]. split; [done|]. split; [done|].
    intros _. eexists. split; [done|]. split; [done|].
    intros Hr. assert (size vm ≠ 0%nat) by by rewrite map_size_non_empty_iff.
    lia.
Qed.

(** X9.  Selection can fail in two ways only: the single-ego assertion
    of line 191, and the ValueError of [random.sample] when more
    vehicles are asked for than there are missions.  The latter happens
    whenever no override applies and k exceeds the number of missions,
    and never with a count that has been clamped to that number. *)
Theorem select_sample_failures
    history k (vm : gmap string Mission.t) rng :
  (∀ e, outcome (select_sample history k vm rng) = inl e ->
        e = AssertionError AssertWaymoK
        ∨ (e = ValueError ∧ (size vm < k)%nat))
  ∧ (TrafficHistory.dataset_source history ≠ "Waymo"
     ∨ TrafficHistory.ego_vehicle_id history = None ->
     (size vm < k)%nat ->
     outcome (select_sample history k vm rng) = inl ValueError)
  ∧ (∀ requested,
        outcome (select_sample history (Nat.min requested (size vm)) vm rng)
        ≠ inl ValueError).
Proof.
  assert (Hlen : length (dict_keys vm) = size vm).
  { unfold dict_keys. by rewrite length_fmap, length_map_to_list. }
  assert (Hgen : ∀ k',
    (∀ e, outcome (select_sample history k' vm rng) = inl e ->
          e = AssertionError AssertWaymoK
          ∨ (e = ValueError ∧ (size vm < k')%nat))
    ∧ (TrafficHistory.dataset_source history ≠ "Waymo"
       ∨ TrafficHistory.ego_vehicle_id history = None ->
       (size vm < k')%nat ->
       outcome (select_sample history k' vm rng) = inl ValueError)).
  { intros k'.
    destruct (decide (TrafficHistory.dataset_source history = "Waymo")) as [Hs|Hs];
      [destruct (TrafficHistory.ego_vehicle_id history) as [ego|] eqn:He|].
    - rewrite (select_sample_waymo history k' vm rng ego Hs He). cbn.
      split.
      + destruct (k' =? 1)%nat; intros e [= <-]. by left.
      + intros [?|?]; done.
    - destruct (le_lt_dec k' (size vm)) as [Hle|Hgt].
      + destruct (select_sample_random history k' vm rng (or_intror He) Hle)
          as (pre & _ & ->). cbn. split; [discriminate|]. lia.
      + assert (E : outcome (select_sample history k' vm rng) = inl ValueError).
        { unfold select_sample, random_sample. rewrite He, Hlen.
          rewrite bool_decide_eq_true_2 by done. cbn -[Nat.ltb].
          rewrite bool_decide_eq_true_2 by done. cbn -[Nat.ltb].
          by apply Nat.ltb_lt in Hgt as ->. }
        rewrite E. split; [|done]. intros e [= <-]. right. done.
    - destruct (le_lt_dec k' (size vm)) as [Hle|Hgt].
      + destruct (select_sample_random history k' vm rng (or_introl Hs) Hle)
          as (pre & _ & ->). cbn. split; [discriminate|]. lia.
      + assert (E : outcome (select_sample history k' vm rng) = inl ValueError).
        { unfold select_sample, random_sample. rewrite Hlen.
          rewrite bool_decide_eq_false_2 by done. cbn -[Nat.ltb].
          rewrite bool_decide_eq_true_2 by done. cbn -[Nat.ltb].
          by apply Nat.ltb_lt in Hgt as ->. }
        rewrite E. split; [|done]. intros e [= <-]. right. done. }
  split; [apply Hgen|]. split; [apply Hgen|].
  intros requested H. apply Hgen in H as [H|[_ H]]; [discriminate|lia].
Qed.

Lemma select_sample_nonempty history k (vm : gmap string Mission.t) rng s rng' :
  (1 ≤ k ≤ size vm)%nat ->
  outcome (select_sample history k vm rng) = inr (s, rng') ->
  s ≠ ∅.
Proof.
  intros [Hk1 Hk2] Hsel.
  assert (Hrandom :
    TrafficHistory.dataset_source history ≠ "Waymo"
    ∨ TrafficHistory.ego_vehicle_id history = None -> s ≠ ∅).
  { intros Hno.
    destruct (select_sample_random history k vm rng Hno Hk2) as (pre & _ & E).
    rewrite E in Hsel. cbn in Hsel. injection Hsel as <- _.
    assert (Hnd : NoDup (dict_keys vm)) by apply NoDup_fst_map_to_list.
    assert (Hk : (k ≤ length (dict_keys vm))%nat).
    { unfold dict_keys. by rewrite length_fmap, length_map_to_list. }
    destruct (sample_from_pool_spec rng (dict_keys vm) k Hnd Hk) as (Hl & Hn & _).
    intros He. apply (f_equal size) in He.
    rewrite size_list_to_set, size_empty in He by done. lia. }
  destruct (decide (TrafficHistory.dataset_source history = "Waymo")) as [Hs|Hs];
    [destruct (TrafficHistory.ego_vehicle_id history) as [ego|] eqn:He|];
    [|by apply Hrandom; right|by apply Hrandom; left].
  rewrite (select_sample_waymo history k vm rng ego Hs He) in Hsel.
  cbn in Hsel. destruct (k =? 1)%nat; [|discriminate].
  injection Hsel as <- _. intros E. apply (f_equal size) in E.
  by rewrite size_singleton, size_empty in E.
Qed.

Lemma set_iter_empty : set_iter ∅ = [].
Proof.
  pose proof (set_iter_perm ∅) as H. rewrite elements_empty in H.
  by apply Permutation_nil_r in H.
Qed.

Lemma set_iter_nonempty s : s ≠ ∅ -> set_iter s ≠ [].
Proof.
  intros Hne E. pose proof (set_iter_perm s) as H. rewrite E in H.
  symmetry in H. apply Permutation_nil_r in H.
  by apply elements_empty_inv, leibniz_equiv in H.
Qed.

(** The budgets of lines 207-210: all of them, or a TypeError as soon
    as one exit time is missing. *)
Lemma budgets_loop_total history l acc :
  for_each l acc (fun acc veh_id =>
    match TrafficHistory.vehicle_final_exit_time history veh_id with
    | Some t => ret (acc ++ [t / tenth])
    | None => raise TypeError
    end)
  = ([], if decide (Forall (fun v =>
                      is_Some (TrafficHistory.vehicle_final_exit_time history v)) l)
         then inr (acc ++ ((fun v =>
                 default 0 (TrafficHistory.vehicle_final_exit_time history v)
                 / tenth) <$> l))
         else inl TypeError).
Proof.
  revert acc. induction l as [|v l IH]; intros acc; cbn [for_each].
  - rewrite decide_True by constructor. cbn. by rewrite app_nil_r.
  - destruct (TrafficHistory.vehicle_final_exit_time history v) as [t|] eqn:E.
    + cbn [bind ret app]. rewrite IH.
      destruct (decide (Forall _ l)) as [Hl|Hl].
      * rewrite decide_True.
        2:{ constructor; [by rewrite E|done]. }
        cbn. rewrite E. cbn. by rewrite <-app_assoc.
      * rewrite decide_False; [done|]. by intros [_ ?]%Forall_cons_1.
    + cbn. rewrite decide_False; [done|].
      intros [H _]%Forall_cons_1. rewrite E in H. by destruct H.
Qed.

Lemma is_max_of_unique m1 m2 l1 l2 :
  l1 ≡ₚ l2 -> MainSpec.is_max_of m1 l1 -> MainSpec.is_max_of m2 l2 -> m1 = m2.
Proof.
  intros Hp [Hin1 Hmax1] [Hin2 Hmax2]. apply Qcle_antisym.
  - apply Hmax2. by rewrite <-Hp.
  - apply Hmax1. by rewrite Hp.
Qed.

Lemma py_max_perm l1 l2 : l1 ≡ₚ l2 -> py_max l1 = py_max l2.
Proof.
  intros Hp. destruct l1 as [|x1 l1], l2 as [|x2 l2].
  - done.
  - by apply Permutation_nil_l in Hp.
  - by apply Permutation_nil_r in Hp.
  - cbn [py_max].
    by rewrite (is_max_of_unique _ _ _ _ Hp (foldl_py_max2_max x1 l1)
                  (foldl_py_max2_max x2 l2)).
Qed.

(** X12.  The step cap computation raises ValueError exactly for an
    empty sample, and a selection made with a count between 1 and the
    number of missions is never empty: in the episodes of a prepared
    scenario the cap is never computed over no vehicle. *)
Theorem step_cap_never_over_no_vehicle
    history (vm : gmap string Mission.t) :
  (∀ sample, outcome (max_episode_steps history sample) = inl ValueError
             ↔ sample = ∅)
  ∧ (∀ k rng sample rng',
        (1 ≤ k ≤ size vm)%nat ->
        outcome (select_sample history k vm rng) = inr (sample, rng') ->
        sample ≠ ∅
        ∧ outcome (max_episode_steps history sample) ≠ inl ValueError).
Proof.
  assert (H1 : ∀ sample,
    outcome (max_episode_steps history sample) = inl ValueError ↔ sample = ∅).
  { intros sample. unfold max_episode_steps. rewrite budgets_loop_total.
    split.
    - intros H. destruct (decide (sample = ∅)) as [|Hne]; [done|exfalso].
      apply set_iter_nonempty in Hne.
      destruct (decide (Forall _ _)); cbn in H; [|discriminate].
      destruct (set_iter sample); [done|]. cbn in H. discriminate.
    - intros ->. rewrite set_iter_empty. by rewrite decide_True by constructor. }
  split; [exact H1|].
  intros k rng sample rng' Hk Hsel.
  pose proof (select_sample_nonempty history k vm rng sample rng' Hk Hsel) as Hne.
  split; [done|]. by rewrite H1.
Qed.
End FurtherSelection.

(** X11.  The step cap does not depend on the order in which the sample
    set is iterated: two runs that differ only in that order (and in
    any other collaborator) compute the same cap, or fail alike. *)
Theorem step_cap_order_independent (C1 C2 : Collaborators) history sample :
  @max_episode_steps C1 history sample = @max_episode_steps C2 history sample.
Proof.
  unfold max_episode_steps. rewrite !budgets_loop_total.
  assert (Hp : @set_iter C1 sample ≡ₚ @set_iter C2 sample).
  { by rewrite !set_iter_perm. }
  destruct (decide (Forall _ (@set_iter C1 sample))) as [H1|H1];
    destruct (decide (Forall _ (@set_iter C2 sample))) as [H2|H2].
  - assert (Hq : (fun v =>
        default 0 (TrafficHistory.vehicle_final_exit_time history v) / tenth)
        <$> @set_iter C1 sample
      ≡ₚ (fun v =>
        default 0 (TrafficHistory.vehicle_final_exit_time history v) / tenth)
        <$> @set_iter C2 sample) by (by rewrite Hp).
    cbn [bind app]. by rewrite (py_max_perm _ _ Hq).
  - exfalso. apply H2. by rewrite <-Hp.
  - exfalso. apply H1. by rewrite Hp.
  - done.
Qed.

(** ** Slots: agent identifiers and the start time *)

Section FurtherSlots.
Context `{C : Collaborators}.
Import Further.

Lemma agent_id_of_inj v1 v2 : agent_id_of v1 = agent_id_of v2 -> v1 = v2.
Proof. unfold agent_id_of. apply (inj (String.append _)). Qed.

Lemma assign_slot_ok (vm : gmap string Mission.t) s v m :
  vm !! v = Some m ->
  assign_slot vm s v
  = ([], inr {| agentid_to_vehid := <[agent_id_of v := v]> (agentid_to_vehid s);
                agent_interfaces := dict_add_key (agent_interfaces s) (agent_id_of v);
                history_start_time :=
                  if not_ (history_start_time s)
                     || lt_start (Mission.start_time m) (history_start_time s)
                  then Some (Mission.start_time m)
                  else history_start_time s |}).
Proof. intros H. unfold assign_slot, getitem. by rewrite H. Qed.

Lemma assign_slot_missing (vm : gmap string Mission.t) s v :
  vm !! v = None -> assign_slot vm s v = ([], inl (KeyError v)).
Proof. intros H. unfold assign_slot, getitem. by rewrite H. Qed.

Lemma assign_slots_loop_ids (vm : gmap string Mission.t) l s :
  NoDup l ->
  (∀ v, v ∈ l -> is_Some (vm !! v)) ->
  (∀ v, v ∈ l -> agent_id_of v ∉ agent_interfaces s) ->
  ∃ s', for_each l s (assign_slot vm) = ([], inr s')
        ∧ agent_interfaces s' = agent_interfaces s ++ (agent_id_of <$> l)
        ∧ ∀ a w, agentid_to_vehid s' !! a = Some w
                 ↔ (w ∈ l ∧ a = agent_id_of w)
                   ∨ (agentid_to_vehid s !! a = Some w
                      ∧ ∀ v, v ∈ l -> a ≠ agent_id_of v).
Proof.
  revert s. induction l as [|v l IH]; intros s Hnd Hm Hfresh; cbn [for_each].
  - exists s. split; [done|]. split; [by rewrite app_nil_r|].
    intros a w. split.
    + intros H. right. split; [done|]. by intros v ?%elem_of_nil.
    + intros [[?%elem_of_nil _]|[? _]]; done.
  - apply NoDup_cons in Hnd as [Hv Hnd].
    destruct (Hm v) as [m Hvm]; [left|].
    rewrite (assign_slot_ok vm s v m Hvm). cbn [bind app].
    set (s1 := {| agentid_to_vehid := _ |}).
    destruct (IH s1 Hnd) as (s' & Hfe & Hif & Hmap).
    { intros; apply Hm; by right. }
    { intros v' Hv'. subst s1. cbn. unfold dict_add_key.
      rewrite decide_False by (apply Hfresh; left).
      intros [Hin|Hin%list_elem_of_singleton]%elem_of_app.
      - apply (Hfresh v'); [by right|done].
      - apply agent_id_of_inj in Hin. by subst. }
    exists s'. split; [by rewrite Hfe|]. split.
    + rewrite Hif. subst s1. cbn. unfold dict_add_key.
      rewrite decide_False by (apply Hfresh; left).
      by rewrite <-app_assoc.
    + intros a w. rewrite Hmap. subst s1. cbn.
      rewrite lookup_insert. destruct (decide (agent_id_of v = a)) as [<-|Hne].
      * split.
        -- intros [[Hw Ha]|[[= <-] _]]; left.
           ++ split; [by right|done].
           ++ split; [left|done].
        -- intros [[Hw Ha]|[_ Hall]].
           ++ apply agent_id_of_inj in Ha. subst w. right. split; [done|].
              intros v' Hv' Heq. apply agent_id_of_inj in Heq. by subst.
           ++ exfalso. apply (Hall v); [left|done].
      * split.
        -- intros [[Hw Ha]|[Hs Hall]].
           ++ left. split; [by right|done].
           ++ right. split; [done|].
              intros v' [->|Hv']%elem_of_cons; [done|by apply Hall].
        -- intros [[[->|Hw]%elem_of_cons Ha]|[Hs Hall]].
           ++ done.
           ++ by left.
           ++ right. split; [done|]. intros v' Hv'. apply Hall. by right.
Qed.

Lemma assign_slots_loop_missing (vm : gmap string Mission.t) l s :
  (∃ v, v ∈ l ∧ vm !! v = None) ->
  ∃ v, v ∈ l ∧ vm !! v = None
       ∧ for_each l s (assign_slot vm) = ([], inl (KeyError v)).
Proof.
  revert s. induction l as [|v l IH]; intros s (v0 & Hin & Hv0).
  - by apply elem_of_nil in Hin.
  - cbn [for_each]. destruct (vm !! v) as [m|] eqn:Hvm.
    + rewrite (assign_slot_ok vm s v m Hvm). cbn [bind app].
      apply elem_of_cons in Hin as [->|Hin]; [congruence|].
      match goal with
      | |- context [for_each l ?s1 _] =>
          destruct (IH s1) as (v1 & Hin1 & Hv1 & Hfe); [eauto|]
      end.
      exists v1. split; [by right|]. split; [done|].
      rewrite Hfe. done.
    + exists v. split; [left|]. split; [done|].
      by rewrite (assign_slot_missing vm s v Hvm).
Qed.

(** X13.  When every selected vehicle has a mission, the slots name one
    agent per vehicle: the agent identifiers are "ego-agent-IL-"
    followed by the vehicle identifier, in iteration order and without
    repetition, and the agent-to-vehicle dictionary maps each of them
    back to its vehicle and holds nothing else.  When some selected
    vehicle has no mission, the loop raises KeyError for such a
    vehicle. *)
Theorem assign_slots_names_agents (vm : gmap string Mission.t) sample :
  ((∀ v, v ∈ sample -> is_Some (vm !! v)) ->
   ∃ slots,
     assign_slots vm sample = ([], inr slots)
     ∧ agent_interfaces slots = agent_id_of <$> set_iter sample
     ∧ NoDup (agent_interfaces slots)
     ∧ ∀ a v, agentid_to_vehid slots !! a = Some v
              ↔ v ∈ sample ∧ a = agent_id_of v)
  ∧ ((∃ v, v ∈ sample ∧ vm !! v = None) ->
     ∃ v, v ∈ sample ∧ vm !! v = None
          ∧ assign_slots vm sample = ([], inl (KeyError v))).
Proof.
  assert (Hin : ∀ v, v ∈ set_iter sample ↔ v ∈ sample).
  { intros v. rewrite set_iter_perm. apply elem_of_elements. }
  assert (Hnd : NoDup (set_iter sample)).
  { rewrite set_iter_perm. apply NoDup_elements. }
  unfold assign_slots. split.
  - intros Hm.
    destruct (assign_slots_loop_ids vm (set_iter sample)
                {| agentid_to_vehid := ∅; agent_interfaces := [];
                   history_start_time := None |} Hnd)
      as (s' & Hfe & Hif & Hmap).
    { intros v Hv. apply Hm. by apply Hin. }
    { intros v _. cbn. apply not_elem_of_nil. }
    exists s'. split; [done|]. cbn in Hif. split; [done|]. split.
    + rewrite Hif. apply NoDup_fmap_2; [|done].
      intros ?? H. by apply agent_id_of_inj.
    + intros a v. rewrite Hmap. cbn. rewrite lookup_empty, Hin.
      split; [|by left]. by intros [?|[? _]].
  - intros (v & Hv & Hnone).
    destruct (assign_slots_loop_missing vm (set_iter sample)
                {| agentid_to_vehid := ∅; agent_interfaces := [];
                   history_start_time := None |})
      as (v1 & Hv1 & Hn1 & Hfe).
    { exists v. split; [by apply Hin|done]. }
    exists v1. split; [by apply Hin|]. done.
Qed.

Lemma assign_slots_loop_origin (vm : gmap string Mission.t) l s tr s' :
  for_each l s (assign_slot vm) = (tr, inr s') ->
  (history_start_time s' = history_start_time s
   ∧ (l = [] ∨ is_Some (history_start_time s)))
  ∨ ∃ v m, v ∈ l ∧ vm !! v = Some m
           ∧ history_start_time s' = Some (Mission.start_time m).
Proof.
  revert s tr. induction l as [|v l IH]; intros s tr; cbn [for_each].
  - intros [= _ <-]. left. split; [done|by left].
  - destruct (vm !! v) as [m|] eqn:Hvm.
    2:{ by rewrite (assign_slot_missing vm s v Hvm). }
    rewrite (assign_slot_ok vm s v m Hvm). cbn [bind app].
    set (s1 := {| agentid_to_vehid := _ |}).
    destruct (for_each l s1 (assign_slot vm)) as [tr1 [e|s2]] eqn:Hfe;
      [discriminate|].
    intros [= _ <-].
    destruct (IH s1 tr1 Hfe) as [[Heq _]|(v' & m' & Hv' & Hm' & Hs')].
    + rewrite Heq. subst s1. cbn.
      destruct (not_ (history_start_time s)) eqn:Hn; cbn [orb].
      * right. exists v, m. split; [left|done].
      * destruct (lt_start _ _).
        -- right. exists v, m. split; [left|done].
        -- left. split; [done|]. right.
           destruct (history_start_time s); [eauto|discriminate].
    + right. exists v', m'. split; [by right|done].
Qed.

(** X15.  For a non-empty sample, whenever the slot loop completes the
    common start time is set, and it is the start time of one of the
    selected missions. *)
Theorem start_time_of_a_selected_mission
    (vm : gmap string Mission.t) sample slots :
  sample ≠ ∅ ->
  outcome (assign_slots vm sample) = inr slots ->
  ∃ v m, v ∈ sample ∧ vm !! v = Some m
         ∧ history_start_time slots = Some (Mission.start_time m).
Proof.
  intros Hne Hrun. unfold assign_slots in Hrun.
  destruct (for_each _ _ _) as [tr r] eqn:Hfe. cbn in Hrun. subst r.
  destruct (assign_slots_loop_origin vm _ _ _ _ Hfe)
    as [[Heq [Hnil|Hsome]]|(v & m & Hv & Hm & Hs)].
  - by apply set_iter_nonempty in Hnil.
  - cbn in Hsome. by destruct Hsome.
  - exists v, m. split; [|done].
    rewrite set_iter_perm in Hv. by apply elem_of_elements.
Qed.

(** X10.  In single-ego mode with k = 1, when the ego vehicle has an
    exit time but no admissible mission, the episode sets the step cap
    from that exit time and then stops with KeyError on the ego
    identifier, at the mission lookup of line 220: no agent is built
    and the simulator is not touched. *)
Theorem waymo_ego_without_mission
    scenario (vm : gmap string Mission.t) sim rng fuel ego t :
  let history := Scenario.traffic_history scenario in
  TrafficHistory.dataset_source history = "Waymo" ->
  TrafficHistory.ego_vehicle_id history = Some ego ->
  TrafficHistory.vehicle_final_exit_time history (pretty ego) = Some t ->
  vm !! pretty ego = None ->
  episode scenario vm 1 sim rng fuel
  = ([EvAssert AssertWaymoK; EvSetMaxEpisodeSteps (t / tenth)],
     inl (KeyError (pretty ego))).
Proof.
  intros history Hs He Ht Hvm. unfold episode. cbv zeta. fold history.
  rewrite (select_sample_waymo history 1 vm rng ego Hs He).
  cbn [Nat.eqb bind fst snd app].
  unfold max_episode_steps, assign_slots. rewrite set_iter_singleton.
  cbn [for_each]. rewrite Ht. cbn [bind ret app py_max foldl emit].
  by rewrite (assign_slot_missing vm _ _ Hvm).
Qed.
End FurtherSlots.

Lemma waymo_ego_without_mission_witness :
  @episode (Demo.world Demo.all_files) Cases.waymo9
    (veh_missions_of [Demo.mission7]) 1 (Demo.sim0 tenth) Demo.rng0 10
  = ([EvAssert AssertWaymoK; EvSetMaxEpisodeSteps (dec 41 1 / tenth)],
     inl (KeyError "9")).
Proof.
  apply (@waymo_ego_without_mission (Demo.world Demo.all_files) Cases.waymo9
           (veh_missions_of [Demo.mission7]) (Demo.sim0 tenth) Demo.rng0 10
           9%Z (dec 41 1)); reflexivity.
Defined.

(** ** Building the agents *)

Section FurtherCrew.
Context `{C : Collaborators}.

Lemma build_crew_unfold scenario dt vm slots start :
  build_crew scenario dt vm slots start
  = for_each (agent_interfaces slots)
      {| agents := ∅; dones0 := ∅; ego_missions := ∅ |}
      (crew_body scenario dt vm slots start).
Proof. reflexivity. Qed.

Lemma gather_actions_unfold agents observations :
  gather_actions agents observations
  = for_each (map_to_list observations) ∅ (action_body agents).
Proof. reflexivity. Qed.

Lemma prune_done_unfold agent_ids dones observations :
  prune_done agent_ids dones observations
  = for_each agent_ids observations (prune_body dones).
Proof. reflexivity. Qed.

Lemma crew_body_ok scenario dt vm slots start c a v m d :
  agentid_to_vehid slots !! a = Some v ->
  vm !! v = Some m ->
  pickle_load (datafile_of scenario v) = inr d ->
  crew_body scenario dt vm slots start c a
  = ([EvBuildAgent a],
     inr {| agents := <[a := loaded_agent dt start v d]> (agents c);
            dones0 := <[a := false]> (dones0 c);
            ego_missions := <[a := m]> (ego_missions c) |}).
Proof.
  intros Ha Hm Hd. unfold crew_body, getitem, load_data_for_vehicle.
  unfold datafile_of in Hd. rewrite Ha. cbn [bind emit ret app].
  rewrite Hd. cbn [bind ret app]. rewrite Hm. reflexivity.
Qed.

Lemma crew_body_trace scenario dt vm slots start c a :
  trace (crew_body scenario dt vm slots start c a) = [EvBuildAgent a].
Proof.
  unfold crew_body, getitem, load_data_for_vehicle.
  destruct (agentid_to_vehid slots !! a) as [v|]; [|done]. cbn [bind emit ret app].
  destruct (pickle_load _); [done|]. cbn [bind emit ret app].
  destruct (vm !! v); done.
Qed.

Lemma crew_loop_trace scenario dt vm slots start l c :
  Forall MainSpec.is_build_event
    (trace (for_each l c (crew_body scenario dt vm slots start))).
Proof.
  revert c. induction l as [|a l IH]; intros c; cbn [for_each].
  - constructor.
  - rewrite trace_bind, crew_body_trace. apply Forall_app. split.
    + by repeat constructor.
    + destruct (outcome _); [constructor|apply IH].
Qed.

Lemma crew_loop_ok scenario dt vm slots start l c :
  (∀ a, a ∈ l -> ∃ v m d,
      agentid_to_vehid slots !! a = Some v ∧ vm !! v = Some m
      ∧ pickle_load (datafile_of scenario v) = inr d) ->
  ∃ c',
    for_each l c (crew_body scenario dt vm slots start)
    = (EvBuildAgent <$> l, inr c')
    ∧ (∀ a, a ∉ l ->
         agents c' !! a = agents c !! a
         ∧ dones0 c' !! a = dones0 c !! a
         ∧ ego_missions c' !! a = ego_missions c !! a)
    ∧ (∀ a, a ∈ l -> ∃ v m d,
         agentid_to_vehid slots !! a = Some v ∧ vm !! v = Some m
         ∧ pickle_load (datafile_of scenario v) = inr d
         ∧ agents c' !! a = Some (loaded_agent dt start v d)
         ∧ dones0 c' !! a = Some false
         ∧ ego_missions c' !! a = Some m).
Proof.
  revert c. induction l as [|a l IH]; intros c Hall; cbn [for_each].
  - exists c. split; [done|]. split; [done|]. by intros a ?%elem_of_nil.
  - destruct (Hall a) as (v & m & d & Ha & Hm & Hd); [left|].
    rewrite (crew_body_ok scenario dt vm slots start c a v m d Ha Hm Hd).
    cbn [bind app].
    set (c1 := {| agents := _ |}).
    destruct (IH c1) as (c' & Hfe & Hout & Hin).
    { intros; apply Hall; by right. }
    exists c'. rewrite Hfe. split; [done|]. split.
    + intros b [Hne Hb]%not_elem_of_cons.
      destruct (Hout b Hb) as (H1 & H2 & H3). rewrite H1, H2, H3.
      subst c1. cbn. by rewrite !lookup_insert_ne.
    + intros b Hb. destruct (decide (b ∈ l)) as [Hbl|Hbl]; [by apply Hin|].
      apply elem_of_cons in Hb as [->|Hb]; [|done].
      destruct (Hout a Hbl) as (H1 & H2 & H3). rewrite H1, H2, H3.
      subst c1. cbn. rewrite !lookup_insert_eq. eauto 10.
Qed.

(** X16.  When every slot's vehicle has a mission and a readable data
    file, the crew is built with one BuildAgent event per slot, in
    order; the agents, the initial done flags and the ego missions
    have exactly the agent identifiers of the slots as keys; every done
    flag starts out false; and every agent carries the simulator's tick,
    the common start time as its time offset, its own vehicle's
    identifier and that vehicle's recorded series. *)
Theorem build_crew_one_agent_per_slot scenario dt vm slots start :
  (∀ a, a ∈ agent_interfaces slots -> ∃ v m d,
      agentid_to_vehid slots !! a = Some v ∧ vm !! v = Some m
      ∧ pickle_load (datafile_of scenario v) = inr d) ->
  ∃ crew,
    build_crew scenario dt vm slots start
    = (EvBuildAgent <$> agent_interfaces slots, inr crew)
    ∧ (∀ a, a ∉ agent_interfaces slots ->
         agents crew !! a = None ∧ dones0 crew !! a = None
         ∧ ego_missions crew !! a = None)
    ∧ (∀ a, a ∈ agent_interfaces slots -> ∃ v m d,
         agentid_to_vehid slots !! a = Some v ∧ vm !! v = Some m
         ∧ pickle_load (datafile_of scenario v) = inr d
         ∧ agents crew !! a = Some (loaded_agent dt start v d)
         ∧ dones0 crew !! a = Some false
         ∧ ego_missions crew !! a = Some m).
Proof.
  intros Hall. rewrite build_crew_unfold.
  destruct (crew_loop_ok scenario dt vm slots start (agent_interfaces slots)
              {| agents := ∅; dones0 := ∅; ego_missions := ∅ |} Hall)
    as (c' & Hfe & Hout & Hin).
  exists c'. split; [done|]. split; [|done].
  intros a Ha. destruct (Hout a Ha) as (H1 & H2 & H3).
  rewrite H1, H2, H3. cbn. by rewrite !lookup_empty.
Qed.

Lemma crew_loop_load_failure scenario dt vm slots start l c :
  (∀ a, a ∈ l -> ∃ v m,
      agentid_to_vehid slots !! a = Some v ∧ vm !! v = Some m) ->
  (∃ a v e, a ∈ l ∧ agentid_to_vehid slots !! a = Some v
            ∧ pickle_load (datafile_of scenario v) = inl e) ->
  ∃ a v e, a ∈ l ∧ agentid_to_vehid slots !! a = Some v
           ∧ pickle_load (datafile_of scenario v) = inl e
           ∧ outcome (for_each l c (crew_body scenario dt vm slots start))
             = inl e.
Proof.
  revert c. induction l as [|a l IH];
    intros c Hall (a0 & v0 & e0 & Hin & Ha0 & Hf0).
  - by apply elem_of_nil in Hin.
  - cbn [for_each]. destruct (Hall a) as (v & m & Ha & Hm); [left|].
    destruct (pickle_load (datafile_of scenario v)) as [e|d] eqn:Hd.
    + exists a, v, e. split; [left|]. split; [done|]. split; [done|].
      apply outcome_bind_raise.
      unfold crew_body, getitem, load_data_for_vehicle.
      unfold datafile_of in Hd. rewrite Ha. cbn [bind emit ret app].
      by rewrite Hd.
    + rewrite (crew_body_ok scenario dt vm slots start c a v m d Ha Hm Hd).
      cbn [bind app].
      apply elem_of_cons in Hin as [->|Hin]; [congruence|].
      match goal with
      | |- context [for_each l ?c1 _] =>
          destruct (IH c1) as (a1 & v1 & e1 & Hin1 & Ha1 & Hf1 & Hout)
      end.
      { intros; apply Hall; by right. }
      { eauto 10. }
      exists a1, v1, e1. split; [by right|]. split; [done|]. split; [done|].
      destruct (for_each l _ _) as [tr r]. cbn in *. done.
Qed.

(** X17.  Building the crew logs BuildAgent events and nothing else,
    whether it succeeds or not; and when the slots' vehicles all have
    missions but opening or unpickling the data file of one of them
    raises, building the crew raises the exception that loading the
    file of such a vehicle raised: FileNotFoundError for a missing
    file, EOFError or UnpicklingError for a damaged one. *)
Theorem build_crew_load_failure scenario dt vm slots start :
  Forall MainSpec.is_build_event (trace (build_crew scenario dt vm slots start))
  ∧ ((∀ a, a ∈ agent_interfaces slots -> ∃ v m,
         agentid_to_vehid slots !! a = Some v ∧ vm !! v = Some m) ->
     (∃ a v e, a ∈ agent_interfaces slots
               ∧ agentid_to_vehid slots !! a = Some v
               ∧ pickle_load (datafile_of scenario v) = inl e) ->
     ∃ a v e, a ∈ agent_interfaces slots
              ∧ agentid_to_vehid slots !! a = Some v
              ∧ pickle_load (datafile_of scenario v) = inl e
              ∧ outcome (build_crew scenario dt vm slots start) = inl e).
Proof.
  rewrite build_crew_unfold. split; [apply crew_loop_trace|].
  apply crew_loop_load_failure.
Qed.
End FurtherCrew.

(** ** One iteration of the simulation loop *)

Section FurtherLoop.
Context `{C : Collaborators}.
Import Further.

Lemma act_trace_asserts self obs : Forall is_assert_event (trace (act self obs)).
Proof.
  destruct (act_checks_in_order_aux self obs) as [k Hk].
  assert (H : Forall is_assert_event all_checks) by (repeat constructor).
  rewrite Hk in H. by apply Forall_app in H as [H _].
Qed.

Lemma action_body_trace agents acc item :
  Forall is_assert_event (trace (action_body agents acc item)).
Proof.
  unfold action_body, getitem. rewrite trace_bind.
  destruct (agents !! item.1) as [agent|]; cbn [trace outcome fst snd ret raise app];
    [|constructor].
  rewrite trace_bind. apply Forall_app. split.
  - apply act_trace_asserts.
  - destruct (outcome _); constructor.
Qed.

Lemma action_loop_trace agents l acc :
  Forall is_assert_event (trace (for_each l acc (action_body agents))).
Proof.
  revert acc. induction l as [|x l IH]; intros acc; cbn [for_each].
  - constructor.
  - rewrite trace_bind. apply Forall_app. split.
    + apply action_body_trace.
    + destruct (outcome _); [constructor|apply IH].
Qed.

Lemma action_body_ok agents acc (a : string) (o : Observation.t) agent r :
  agents !! a = Some agent ->
  outcome (act agent o) = inr r ->
  outcome (action_body agents acc (a, o)) = inr (<[a := r]> acc).
Proof.
  intros Ha Hr. unfold action_body, getitem. cbn [fst snd]. rewrite Ha.
  rewrite outcome_bind. cbn [outcome ret snd]. by rewrite outcome_bind, Hr.
Qed.

Lemma action_loop_ok agents (l : list (string * Observation.t)) acc :
  NoDup (l.*1) ->
  (∀ a o, (a, o) ∈ l -> ∃ agent r,
      agents !! a = Some agent ∧ outcome (act agent o) = inr r) ->
  ∃ acts,
    outcome (for_each l acc (action_body agents)) = inr acts
    ∧ ∀ a r, acts !! a = Some r
             ↔ (∃ o agent, (a, o) ∈ l ∧ agents !! a = Some agent
                           ∧ outcome (act agent o) = inr r)
               ∨ ((a ∉ fst <$> l) ∧ acc !! a = Some r).
Proof.
  revert acc. induction l as [|[a o] l IH]; intros acc Hnd Hall; cbn [for_each].
  - exists acc. split; [done|]. intros a r. split.
    + intros H. right. split; [apply not_elem_of_nil|done].
    + intros [(o & agent & ?%elem_of_nil & _)|[_ ?]]; done.
  - cbn in Hnd. apply NoDup_cons in Hnd as [Ha Hnd].
    destruct (Hall a o) as (agent & r & Hag & Hr); [left|].
    rewrite outcome_bind, (action_body_ok agents acc a o agent r Hag Hr).
    destruct (IH (<[a := r]> acc) Hnd) as (acts & Hfe & Hmap).
    { intros; apply Hall; by right. }
    exists acts. split; [done|]. intros b rb. rewrite Hmap. cbn [fmap list_fmap fst].
    split.
    + intros [(ob & agb & Hin & Hagb & Hrb)|[Hnin Hacc]].
      * left. exists ob, agb. split; [by right|done].
      * destruct (decide (a = b)) as [<-|Hne].
        -- rewrite lookup_insert_eq in Hacc. injection Hacc as <-.
           left. exists o, agent. split; [left|done].
        -- rewrite lookup_insert_ne in Hacc by done.
           right. split; [|done]. by intros [?|?]%elem_of_cons.
    + intros [(ob & agb & [[= -> ->]|Hin]%elem_of_cons & Hagb & Hrb)|[Hnin Hacc]].
      * right. split; [done|]. rewrite lookup_insert_eq. congruence.
      * left. eauto.
      * apply not_elem_of_cons in Hnin as [Hne Hnin].
        right. split; [done|]. by rewrite lookup_insert_ne.
Qed.

Lemma action_loop_failure agents (l : list (string * Observation.t)) acc e :
  outcome (for_each l acc (action_body agents)) = inl e ->
  (∃ a o, (a, o) ∈ l ∧ agents !! a = None ∧ e = KeyError a)
  ∨ (∃ a o agent, (a, o) ∈ l ∧ agents !! a = Some agent
                  ∧ outcome (act agent o) = inl e).
Proof.
  revert acc. induction l as [|[a o] l IH]; intros acc; cbn [for_each];
    [discriminate|].
  rewrite outcome_bind. unfold action_body at 1. unfold getitem. cbn [fst snd].
  rewrite outcome_bind.
  destruct (agents !! a) as [agent|] eqn:Hag; cbn [outcome ret raise snd].
  - rewrite outcome_bind.
    destruct (outcome (act agent o)) as [e'|r] eqn:Hr.
    + intros [= <-]. right. exists a, o, agent. split; [left|done].
    + cbn. intros H. destruct (IH _ H) as [(b & ob & Hin & ?)|(b & ob & agb & Hin & ?)].
      * left. exists b, ob. split; [by right|done].
      * right. exists b, ob, agb. split; [by right|done].
  - cbn. intros [= <-]. left. exists a, o. split; [left|done].
Qed.

(** X18.  Gathering actions asks exactly the observed agents: when
    every observed agent is known and its [act] returns, the result
    holds one action per observation, namely what that agent's [act]
    returned on it, and nothing for agents without an observation.
    When gathering fails, it is with KeyError for an observed agent
    that is not among the agents, or with the exception one of the
    agents raised.  Nothing but assertion checks is logged. *)
Theorem gather_actions_one_per_observation agents observations :
  Forall is_assert_event (trace (gather_actions agents observations))
  ∧ ((∀ a o, observations !! a = Some o -> ∃ agent r,
         agents !! a = Some agent ∧ outcome (act agent o) = inr r) ->
     ∃ actions,
       outcome (gather_actions agents observations) = inr actions
       ∧ ∀ a r, actions !! a = Some r
                ↔ ∃ o agent, observations !! a = Some o
                             ∧ agents !! a = Some agent
                             ∧ outcome (act agent o) = inr r)
  ∧ (∀ e, outcome (gather_actions agents observations) = inl e ->
          (∃ a o, observations !! a = Some o ∧ agents !! a = None
                  ∧ e = KeyError a)
          ∨ (∃ a o agent, observations !! a = Some o
                          ∧ agents !! a = Some agent
                          ∧ outcome (act agent o) = inl e)).
Proof.
  rewrite gather_actions_unfold. split; [apply action_loop_trace|]. split.
  - intros Hall.
    destruct (action_loop_ok agents (map_to_list observations) ∅)
      as (acts & Hfe & Hmap).
    { apply NoDup_fst_map_to_list. }
    { intros a o Hin%elem_of_map_to_list. by apply Hall. }
    exists acts. split; [done|]. intros a r. rewrite Hmap. split.
    + intros [(o & agent & Hin%elem_of_map_to_list & H)|[_ H]]; [eauto|].
      by rewrite lookup_empty in H.
    + intros (o & agent & Ho & H). left. exists o, agent.
      split; [by apply elem_of_map_to_list|done].
  - intros e He. apply action_loop_failure in He
      as [(a & o & Hin%elem_of_map_to_list & H)
         |(a & o & agent & Hin%elem_of_map_to_list & H)]; eauto 10.
Qed.

Lemma prune_body_trace dones obs a :
  Forall is_warning_event (trace (prune_body dones obs a)).
Proof.
  unfold prune_body, getitem. destruct (default false (dones !! a)); [|constructor].
  destruct (obs !! a) as [o|]; [|constructor]. cbn [bind ret app].
  destruct (Events.reached_goal _); cbn; repeat constructor.
Qed.

Lemma prune_loop_trace dones l obs :
  Forall is_warning_event (trace (for_each l obs (prune_body dones))).
Proof.
  revert obs. induction l as [|a l IH]; intros obs; cbn [for_each].
  - constructor.
  - rewrite trace_bind. apply Forall_app. split.
    + apply prune_body_trace.
    + destruct (outcome _); [constructor|apply IH].
Qed.

Lemma prune_body_done dones (obs : gmap string Observation.t) a o :
  done_flag dones a = true -> obs !! a = Some o ->
  prune_body dones obs a
  = (if Events.reached_goal (Observation.events o) then []
     else [EvWarning (WarnAgentExited a)],
     inr (delete a obs)).
Proof.
  unfold done_flag. intros Hd Ho. unfold prune_body, getitem. rewrite Hd, Ho.
  cbn [bind ret app]. by destruct (Events.reached_goal _).
Qed.

Lemma prune_body_live dones (obs : gmap string Observation.t) a :
  done_flag dones a = false -> prune_body dones obs a = ([], inr obs).
Proof. unfold done_flag. intros Hd. unfold prune_body. by rewrite Hd. Qed.

Lemma prune_loop_ok dones l (obs : gmap string Observation.t) :
  NoDup l ->
  (∀ a, a ∈ l -> done_flag dones a = true -> is_Some (obs !! a)) ->
  ∃ tr obs',
    for_each l obs (prune_body dones) = (tr, inr obs')
    ∧ (∀ a, obs' !! a
            = if decide (a ∈ l ∧ done_flag dones a = true) then None
              else obs !! a)
    ∧ (∀ a, EvWarning (WarnAgentExited a) ∈ tr
            ↔ a ∈ l ∧ exited_early dones obs a = true).
Proof.
  revert obs. induction l as [|a l IH]; intros obs Hnd Hall; cbn [for_each].
  - exists [], obs. split; [done|]. split.
    + intros a. rewrite decide_False; [done|]. by intros [?%elem_of_nil _].
    + intros a. split; [by intros ?%elem_of_nil|by intros [?%elem_of_nil _]].
  - apply NoDup_cons in Hnd as [Ha Hnd].
    destruct (done_flag dones a) eqn:Hd.
    + destruct (Hall a) as [o Ho]; [left|done|].
      rewrite (prune_body_done dones obs a o Hd Ho). cbn [bind].
      destruct (IH (delete a obs) Hnd) as (tr & obs' & Hfe & Hobs & Htr).
      { intros b Hb Hdb. rewrite lookup_delete_ne by (intros ->; done).
        apply Hall; [by right|done]. }
      rewrite Hfe. eexists _, obs'. split; [reflexivity|]. split.
      * intros b. rewrite Hobs. destruct (decide (b = a)) as [->|Hne].
        -- rewrite lookup_delete_eq. rewrite (decide_True (P := a ∈ a :: l ∧ _));
             [by destruct (decide _)|]. split; [left|done].
        -- rewrite lookup_delete_ne by done.
           apply decide_ext. rewrite elem_of_cons.
           split; [intros [? ?]; split; [by right|done]|].
           intros [[?|?] ?]; [congruence|done].
      * intros b. rewrite elem_of_app, Htr, elem_of_cons.
        unfold exited_early. destruct (decide (b = a)) as [->|Hne].
        -- rewrite Hd, Ho, lookup_delete_eq. cbn [andb].
           destruct (Events.reached_goal _); cbn [negb].
           ++ split; [|by intros [_ ?]].
              intros [?%elem_of_nil|[_ ?]]; done.
           ++ split; [intros _; split; [by left|done]|]. intros _. left. left.
        -- rewrite lookup_delete_ne by done. split.
           ++ intros [H|[Hb He]]; [|split; [by right|done]].
              destruct (Events.reached_goal _);
                [by apply elem_of_nil in H|].
              apply list_elem_of_singleton in H. congruence.
           ++ intros [[?|Hb] He]; [done|]. right. done.
    + rewrite (prune_body_live dones obs a Hd). cbn [bind app].
      destruct (IH obs Hnd) as (tr & obs' & Hfe & Hobs & Htr).
      { intros b Hb Hdb. apply Hall; [by right|done]. }
      rewrite Hfe. exists tr, obs'. split; [done|]. split.
      * intros b. rewrite Hobs. apply decide_ext. rewrite elem_of_cons.
        split; [intros [? ?]; split; [by right|done]|].
        intros [[->|?] Hb]; [congruence|done].
      * intros b. rewrite Htr, elem_of_cons. unfold exited_early.
        split; [intros [? ?]; split; [by right|done]|].
        intros [[->|?] Hb]; [|done].
        by rewrite Hd in Hb.
Qed.

Lemma prune_loop_failure dones l (obs : gmap string Observation.t) e :
  NoDup l ->
  outcome (for_each l obs (prune_body dones)) = inl e ->
  ∃ a, a ∈ l ∧ done_flag dones a = true ∧ obs !! a = None ∧ e = KeyError a.
Proof.
  revert obs. induction l as [|a l IH]; intros obs Hnd; cbn [for_each];
    [discriminate|].
  apply NoDup_cons in Hnd as [Ha Hnd]. rewrite outcome_bind.
  destruct (done_flag dones a) eqn:Hd.
  - destruct (obs !! a) as [o|] eqn:Ho.
    + rewrite (prune_body_done dones obs a o Hd Ho). cbn [outcome snd].
      intros H. destruct (IH _ Hnd H) as (b & Hb & Hdb & Hob & ->).
      exists b. split; [by right|]. split; [done|]. split; [|done].
      rewrite lookup_delete_ne in Hob; [done|]. by intros ->.
    + unfold prune_body, getitem. unfold done_flag in Hd. rewrite Hd, Ho.
      cbn. intros [= <-]. exists a. split; [left|]. done.
  - rewrite (prune_body_live dones obs a Hd). cbn [outcome snd].
    intros H. destruct (IH _ Hnd H) as (b & Hb & ?).
    exists b. split; [by right|done].
Qed.

(** X19.  Pruning removes from the observations exactly the agents
    that are reported done, and leaves every other agent's observation
    as it was; it warns about exactly those done agents whose
    observation does not show the goal reached, and logs nothing else.
    It fails only with KeyError, for a done agent that has no
    observation. *)
Theorem prune_done_removes_exactly_done agent_ids dones observations :
  NoDup agent_ids ->
  Forall is_warning_event (trace (prune_done agent_ids dones observations))
  ∧ ((∀ a, a ∈ agent_ids -> done_flag dones a = true ->
           is_Some (observations !! a)) ->
     ∃ obs',
       outcome (prune_done agent_ids dones observations) = inr obs'
       ∧ (∀ a, obs' !! a
               = if decide (a ∈ agent_ids ∧ done_flag dones a = true)
                 then None else observations !! a)
       ∧ (∀ a, EvWarning (WarnAgentExited a)
               ∈ trace (prune_done agent_ids dones observations)
               ↔ a ∈ agent_ids ∧ exited_early dones observations a = true))
  ∧ (∀ e, outcome (prune_done agent_ids dones observations) = inl e ->
          ∃ a, a ∈ agent_ids ∧ done_flag dones a = true
               ∧ observations !! a = None ∧ e = KeyError a).
Proof.
  intros Hnd. rewrite prune_done_unfold. split; [apply prune_loop_trace|].
  split.
  - intros Hall.
    destruct (prune_loop_ok dones agent_ids observations Hnd Hall)
      as (tr & obs' & Hfe & Hobs & Htr).
    exists obs'. rewrite Hfe. done.
  - intros e. by apply prune_loop_failure.
Qed.

Lemma prune_loop_success dones l (obs obs' : gmap string Observation.t) :
  NoDup l ->
  outcome (for_each l obs (prune_body dones)) = inr obs' ->
  ∀ a, a ∈ l -> done_flag dones a = true -> is_Some (obs !! a).
Proof.
  revert obs. induction l as [|a l IH]; intros obs Hnd; cbn [for_each].
  - by intros _ b ?%elem_of_nil.
  - apply NoDup_cons in Hnd as [Ha Hnd]. rewrite outcome_bind.
    destruct (done_flag dones a) eqn:Hd.
    + destruct (obs !! a) as [o|] eqn:Ho.
      * rewrite (prune_body_done dones obs a o Hd Ho). cbn [outcome snd].
        intros H b [->|Hb]%elem_of_cons Hdb; [by rewrite Ho|].
        specialize (IH _ Hnd H b Hb Hdb).
        rewrite lookup_delete_ne in IH; [done|]. by intros ->.
      * unfold prune_body, getitem. unfold done_flag in Hd. by rewrite Hd, Ho.
    + rewrite (prune_body_live dones obs a Hd). cbn [outcome snd].
      intros H b [->|Hb]%elem_of_cons Hdb; [congruence|]. by eapply IH.
Qed.

(** X24.  A completed iteration of the loop gathers the actions of the
    observed agents, steps the simulator once with them, takes the done
    flags as the simulator returned them, and keeps the returned
    observations except those of the agents reported done, which are
    therefore not asked to act in the next iteration.  Its log is the
    agents' assertion checks, then the step, then the exit warnings. *)
Theorem loop_body_drops_done_agents agents agent_ids st tr st' :
  NoDup agent_ids ->
  loop_body agents agent_ids st = (tr, inr st') ->
  ∃ actions,
    outcome (gather_actions agents (observations st)) = inr actions
    ∧ smarts st' = (step (smarts st) actions).1
    ∧ dones st' = (step (smarts st) actions).2.2
    ∧ (∀ a, observations st' !! a
            = if decide (a ∈ agent_ids ∧ done_flag (dones st') a = true)
              then None else (step (smarts st) actions).2.1 !! a)
    ∧ ∃ pre post,
        tr = pre ++ [EvStep (dict_keys (observations st))] ++ post
        ∧ Forall is_assert_event pre ∧ Forall is_warning_event post.
Proof.
  intros Hnd. unfold loop_body.
  pose proof (action_loop_trace agents (map_to_list (observations st)) ∅) as Htr1.
  rewrite <-gather_actions_unfold in Htr1.
  destruct (gather_actions agents (observations st)) as [tr1 [e|actions]];
    [discriminate|].
  cbn [bind emit trace fst] in *. cbv zeta.
  set (r := step (smarts st) actions).
  pose proof (prune_loop_trace r.2.2 agent_ids r.2.1) as Htr2.
  rewrite <-prune_done_unfold in Htr2.
  destruct (prune_done agent_ids r.2.2 r.2.1) as [tr2 [e|obs']] eqn:Hp;
    [discriminate|].
  cbn [bind ret trace fst app] in *. intros [= <- <-].
  exists actions. split; [done|]. cbn [smarts dones observations].
  split; [done|]. split; [done|]. split.
  - assert (Ho : outcome (for_each agent_ids r.2.1 (prune_body r.2.2)) = inr obs').
    { rewrite <-prune_done_unfold. by rewrite Hp. }
    pose proof (prune_loop_success _ _ _ _ Hnd Ho) as Hpre.
    destruct (prune_loop_ok r.2.2 agent_ids r.2.1 Hnd Hpre)
      as (tr' & obs2 & Hfe & Hobs & _).
    rewrite Hfe in Ho. cbn in Ho. injection Ho as ->. exact Hobs.
  - exists tr1, tr2. split; [|done]. by rewrite app_nil_r.
Qed.

End FurtherLoop.

(** ** The shape of an episode *)

Section FurtherEpisode.
Context `{C : Collaborators}.
Import Further MainSpec.

Lemma shape_bind {A B} (m : Py A) (f : A -> Py B) :
  Forall (fun ev => ¬ is_sim_event ev) (trace m) ->
  (∀ a, outcome m = inr a -> episode_shape (f a)) ->
  episode_shape (bind m f).
Proof.
  intros Hm Hf. destruct m as [tr [e|a]]; cbn [trace outcome fst snd] in *.
  - exists tr, []. cbn. rewrite app_nil_r. split; [done|]. split; [done|].
    left. eauto.
  - destruct (Hf a eq_refl) as (pre & post & Htr & Hpre & Hpost).
    exists (tr ++ pre), post. rewrite trace_bind, outcome_bind.
    cbn [trace outcome fst snd]. rewrite Htr, app_assoc.
    split; [done|]. split; [by apply Forall_app|done].
Qed.

Lemma shape_reset {A} t (rest : Py A) :
  Forall loop_event (trace rest) ->
  episode_shape (bind (emit (EvReset t)) (fun _ => rest)).
Proof.
  intros H. exists [], (EvReset t :: trace rest). rewrite trace_bind.
  split; [done|]. split; [constructor|]. right. eauto.
Qed.

Lemma select_sample_no_sim history k vm rng :
  Forall (fun ev => ¬ is_sim_event ev)
    (trace (select_sample history k vm rng)).
Proof.
  unfold select_sample, random_sample.
  destruct (bool_decide (TrafficHistory.dataset_source history = "Waymo"));
    [destruct (TrafficHistory.ego_vehicle_id history);
     [destruct (k =? 1)%nat|]|];
    cbn -[Nat.ltb]; repeat (destruct (bool_decide _); cbn -[Nat.ltb]);
    repeat (destruct (_ <? _)%nat; cbn -[Nat.ltb]);
    repeat (apply Forall_cons; split; [cbn; tauto|]); constructor.
Qed.

Lemma assign_slot_trace vm s v : trace (assign_slot vm s v) = [].
Proof. unfold assign_slot, getitem. by destruct (vm !! v). Qed.

Lemma assign_slots_trace vm sample : trace (assign_slots vm sample) = [].
Proof.
  unfold assign_slots. generalize (set_iter sample).
  generalize ({| agentid_to_vehid := ∅; agent_interfaces := [];
                 history_start_time := None |}).
  intros s l. revert s. induction l as [|v l IH]; intros s; cbn [for_each].
  - done.
  - rewrite trace_bind, assign_slot_trace. cbn. by destruct (outcome _).
Qed.

Lemma loop_body_trace agents agent_ids st :
  Forall loop_event (trace (loop_body agents agent_ids st)).
Proof.
  unfold loop_body. rewrite trace_bind. apply Forall_app. split.
  - rewrite gather_actions_unfold.
    eapply Forall_impl; [apply action_loop_trace|]. intros ev H. by left.
  - destruct (outcome _) as [e|actions]; [constructor|].
    rewrite trace_bind. cbn [emit trace outcome fst snd].
    constructor; [right; left; exact I|]. cbv zeta. rewrite trace_bind.
    apply Forall_app. split.
    + rewrite prune_done_unfold.
      eapply Forall_impl; [apply prune_loop_trace|]. intros ev H. by right; right.
    + destruct (outcome _); constructor.
Qed.

Lemma simulation_loop_trace fuel agents agent_ids st :
  Forall loop_event (trace (simulation_loop fuel agents agent_ids st)).
Proof.
  revert st. induction fuel as [|fuel IH]; intros st; cbn [simulation_loop];
    destruct (loop_condition (dones st)); try constructor.
  rewrite trace_bind. apply Forall_app. split; [apply loop_body_trace|].
  destruct (outcome _); [constructor|apply IH].
Qed.

Lemma episode_has_shape scenario vm k sim rng fuel :
  episode_shape (episode scenario vm k sim rng fuel).
Proof.
  unfold episode. cbv zeta.
  apply shape_bind; [apply select_sample_no_sim|intros chosen _].
  apply shape_bind; [rewrite max_episode_steps_trace; constructor|intros cap _].
  apply shape_bind; [repeat constructor; cbn; tauto|intros _ _].
  apply shape_bind; [rewrite assign_slots_trace; constructor|intros slots _].
  apply shape_bind;
    [destruct (history_start_time slots); constructor|intros start _].
  apply shape_bind.
  { rewrite build_crew_unfold.
    eapply Forall_impl; [apply crew_loop_trace|].
    intros [] H; cbn in *; tauto. }
  intros crew _.
  apply shape_bind; [repeat constructor; cbn; tauto|intros _ _].
  apply shape_bind; [repeat constructor; cbn; tauto|intros _ _].
  apply shape_reset. rewrite trace_bind. apply Forall_app. split.
  - repeat constructor.
  - destruct (outcome _); [constructor|]. rewrite trace_bind.
    apply Forall_app. split; [apply simulation_loop_trace|].
    destruct (outcome _); constructor.
Qed.

(** X21.  The log of an episode has a fixed shape: first events that
    do not touch the simulator (selection, the step cap, building the
    agents, handing over missions and agents); then either nothing
    more, in which case the episode has raised, or one reset followed
    only by assertion checks, steps and exit warnings.  So the
    simulator is never stepped before it is reset, is reset at most
    once per episode, and no agent is built after the reset. *)
Theorem episode_resets_once_then_loops scenario vm k sim rng fuel :
  ∃ pre post,
    trace (episode scenario vm k sim rng fuel) = pre ++ post
    ∧ Forall (fun ev => ¬ is_sim_event ev) pre
    ∧ ((post = [] ∧ ∃ e, outcome (episode scenario vm k sim rng fuel) = inl e)
       ∨ ∃ t post', post = EvReset t :: post' ∧ Forall loop_event post').
Proof. apply episode_has_shape. Qed.

Lemma resets_app tr1 tr2 : resets (tr1 ++ tr2) = (resets tr1 + resets tr2)%nat.
Proof. unfold resets. by rewrite List.filter_app, length_app. Qed.

Lemma resets_no_sim tr :
  Forall (fun ev => ¬ is_sim_event ev) tr -> resets tr = 0%nat.
Proof.
  induction 1 as [|ev tr Hev _ IH]; [done|].
  unfold resets in *. cbn. destruct ev; cbn in *; first [done|tauto].
Qed.

Lemma resets_loop tr : Forall loop_event tr -> resets tr = 0%nat.
Proof.
  induction 1 as [|ev tr Hev _ IH]; [done|].
  unfold resets in *. cbn.
  destruct ev; cbn in *; first [done|unfold loop_event in Hev; cbn in Hev; tauto].
Qed.

Lemma episode_success_resets scenario vm k sim rng fuel tr r :
  episode scenario vm k sim rng fuel = (tr, inr r) -> resets tr = 1%nat.
Proof.
  intros Hrun.
  destruct (episode_has_shape scenario vm k sim rng fuel)
    as (pre & post & Htr & Hpre & [[_ [e He]]|(t & post' & -> & Hpost)]).
  - rewrite Hrun in He. discriminate.
  - rewrite Hrun in Htr. cbn in Htr. subst tr.
    rewrite resets_app, (resets_no_sim _ Hpre).
    change (EvReset t :: post') with ([EvReset t] ++ post').
    by rewrite resets_app, (resets_loop _ Hpost).
Qed.

(** X23.  A run of episodes that completes has reset the simulator
    exactly once per episode; and when an episode raises, the run
    raises the same exception at that point, later episodes not being
    started. *)
Theorem run_episodes_one_reset_each
    episodes scenario vm k sim rng fuel :
  (∀ tr sim',
      run_episodes episodes scenario vm k sim rng fuel = (tr, inr (Some sim')) ->
      resets tr = episodes)
  ∧ (∀ tr e,
      episode scenario vm k sim rng fuel = (tr, inl e) ->
      run_episodes (S episodes) scenario vm k sim rng fuel = (tr, inl e)).
Proof.
  split.
  - revert sim rng. induction episodes as [|n IH]; intros sim rng tr sim';
      cbn [run_episodes].
    + by intros [= <- _].
    + destruct (episode scenario vm k sim rng fuel)
        as [tr1 [e|[[st|] rng']]] eqn:Hep; cbn [bind fst snd];
        [discriminate| |discriminate].
      destruct (run_episodes n scenario vm k (smarts st) rng' fuel)
        as [tr2 r2] eqn:Hrest.
      intros [= <- ->].
      rewrite resets_app, (episode_success_resets _ _ _ _ _ _ _ _ Hep).
      by rewrite (IH _ _ _ _ Hrest).
  - intros tr e Hep. cbn [run_episodes]. by rewrite Hep.
Qed.

End FurtherEpisode.

(** ** Loading, then acting *)

(** X25.  Loading the data of a vehicle raises the exception that
    opening or unpickling the vehicle's file raised, whichever it is,
    and logs nothing.  Otherwise it yields an agent with the same tick
    and quantizer that holds the file's series, the given time offset
    and the vehicle's identifier; if the series is not empty that
    agent's [act] never fails the data assertion of line 55, and it
    answers an observation for which the series has no record with the
    neutral control input. *)
Theorem load_then_act `{C : Collaborators} self v sn hn off :
  (∀ e, pickle_load (datafile sn hn v) = inl e ->
        load_data_for_vehicle self v sn hn off = ([], inl e))
  ∧ (∀ d : series,
       pickle_load (datafile sn hn v) = inr d ->
       ∃ agent',
         load_data_for_vehicle self v sn hn off = ([], inr agent')
         ∧ _data agent' = Some d
         ∧ _time_offset agent' = off
         ∧ _vehicle_id agent' = v
         ∧ _rounder agent' = _rounder self
         ∧ _fixed_timestep_sec agent' = _fixed_timestep_sec self
         ∧ (d ≠ ∅ ->
            ∀ obs,
              outcome (act agent' obs) ≠ inl (AssertionError AssertData)
              ∧ (d !! _rounder self (Observation.elapsed_sim_time obs + off)
                 = None ->
                 act agent' obs = ([EvAssert AssertData], inr neutral)))).
Proof.
  unfold load_data_for_vehicle. split.
  - by intros e ->.
  - intros d ->.
    set (agent' := {| _fixed_timestep_sec := _fixed_timestep_sec self;
                      _rounder := _rounder self;
                      _time_offset := off;
                      _data := Some d;
                      _vehicle_id := v |}).
    exists agent'. split; [reflexivity|].
    do 5 (split; [reflexivity|]). intros Hne obs.
    assert (Habs : d !! ActSpec.quantized_time agent' obs = None ->
                   act agent' obs = ([EvAssert AssertData], inr neutral)).
    { intros Hk. by apply (act_absent agent' obs d). }
    split; [|exact Habs].
    destruct (d !! ActSpec.quantized_time agent' obs) as [exp|] eqn:Hk.
    + pose proof (act_present agent' obs d exp eq_refl Hk) as Hact.
      cbv zeta in Hact. rewrite Hact.
      destruct (ActSpec.within_tolerance _ exp); [discriminate|].
      repeat (destruct (negb _); [discriminate|]). discriminate.
    + rewrite Habs by done. discriminate.
Qed.

(** ** The further statements on the concrete world *)

Lemma history_start_time_is_min_when_nonzero_witness :
  ∃ slots t,
    @assign_slots (Demo.world Demo.all_files) Cases.missions_late {[ "A"; "B" ]}
    = ([], inr slots)
    ∧ history_start_time slots = Some t
    ∧ MainSpec.is_min_of t
        (Cases.start_late <$> elements ({[ "A"; "B" ]} : gset string)).
Proof.
  apply (@history_start_time_is_min_when_nonzero (Demo.world Demo.all_files)).
  - intros H. apply (f_equal size) in H. vm_compute in H. discriminate.
  - intros v [Hv|Hv]%elem_of_union; apply elem_of_singleton in Hv; subst v;
      eexists; (split; [vm_compute; reflexivity|reflexivity]).
  - intros v [Hv|Hv]%elem_of_union; apply elem_of_singleton in Hv; subst v;
      intros H; apply (f_equal this) in H; vm_compute in H; discriminate.
Defined.

Lemma start_time_of_a_selected_mission_witness :
  ∃ slots v m,
    outcome (@assign_slots (Demo.world Demo.all_files) Demo.missions_AB
               {[ "A"; "B" ]}) = inr slots
    ∧ v ∈ ({[ "A"; "B" ]} : gset string)
    ∧ Demo.missions_AB !! v = Some m
    ∧ history_start_time slots = Some (Mission.start_time m).
Proof.
  destruct (@assign_slots (Demo.world Demo.all_files) Demo.missions_AB
              {[ "A"; "B" ]}) as [tr [e|slots]] eqn:E.
  - did_not_raise E.
  - destruct (@start_time_of_a_selected_mission (Demo.world Demo.all_files)
                Demo.missions_AB {[ "A"; "B" ]} slots) as (v & m & H).
    + intros H. apply (f_equal size) in H. vm_compute in H. discriminate.
    + by rewrite E.
    + exists slots, v, m. split; [done|exact H].
Defined.

Lemma build_crew_one_agent_per_slot_witness :
  ∃ crew,
    @build_crew (Demo.world Demo.all_files) Demo.scenarioAB tenth
      Demo.missions_AB Cases.slotsAB (dec 5 1)
    = ([EvBuildAgent "ego-agent-IL-A"; EvBuildAgent "ego-agent-IL-B"], inr crew)
    ∧ dones0 crew !! "ego-agent-IL-B" = Some false.
Proof.
  destruct (@build_crew_one_agent_per_slot (Demo.world Demo.all_files)
              Demo.scenarioAB tenth Demo.missions_AB Cases.slotsAB (dec 5 1))
    as (crew & Hrun & _ & Hin).
  - intros a [->|[->|[]%elem_of_nil]%elem_of_cons]%elem_of_cons.
    + exists "A", (Mission.mk "A" 0), Demo.two_ticks.
      repeat split; vm_compute; reflexivity.
    + exists "B", (Mission.mk "B" (dec 5 1)), Demo.two_ticks.
      repeat split; vm_compute; reflexivity.
  - exists crew. split; [exact Hrun|].
    destruct (Hin "ego-agent-IL-B") as (v & m & d & _ & _ & _ & _ & H & _);
      [right; left|exact H].
Defined.

Lemma prune_done_removes_exactly_done_witness :
  ∃ obs',
    outcome (prune_done ["a"; "b"] Cases.dones_a Cases.obs_ab) = inr obs'
    ∧ obs' !! "a" = None
    ∧ obs' !! "b" = Cases.obs_ab !! "b"
    ∧ EvWarning (WarnAgentExited "a")
      ∈ trace (prune_done ["a"; "b"] Cases.dones_a Cases.obs_ab).
Proof.
  destruct (prune_done_removes_exactly_done ["a"; "b"] Cases.dones_a Cases.obs_ab)
    as (_ & H & _).
  { apply NoDup_cons. split; [by intros ?%list_elem_of_singleton|].
    apply NoDup_singleton. }
  destruct H as (obs' & Hrun & Hobs & Htr).
  { intros a [->|[->|[]%elem_of_nil]%elem_of_cons]%elem_of_cons _;
      eexists; vm_compute; reflexivity. }
  exists obs'. split; [exact Hrun|]. split; [|split].
  - rewrite Hobs. rewrite decide_True; [done|]. split; [left|reflexivity].
  - rewrite Hobs. rewrite decide_False; [done|]. intros [_ H]. discriminate.
  - apply Htr. split; [left|reflexivity].
Defined.

Lemma loop_body_drops_done_agents_witness :
  ∃ tr st',
    @loop_body (Demo.world Demo.all_files) Demo.crew0 ["a"] Demo.loop0
    = (tr, inr st')
    ∧ ∃ actions,
        outcome (@gather_actions Demo.crew0
                   (@observations (Demo.world Demo.all_files) Demo.loop0))
        = inr actions
        ∧ dones st' = (@step (Demo.world Demo.all_files)
                         (smarts Demo.loop0) actions).2.2.
Proof.
  destruct (@loop_body (Demo.world Demo.all_files) Demo.crew0 ["a"] Demo.loop0)
    as [tr [e|st']] eqn:E.
  - did_not_raise E.
  - exists tr, st'. split; [reflexivity|].
    destruct (@loop_body_drops_done_agents (Demo.world Demo.all_files)
                Demo.crew0 ["a"] Demo.loop0 tr st')
      as (actions & H1 & _ & H2 & _).
    + apply NoDup_singleton.
    + exact E.
    + exists actions. split; [exact H1|exact H2].
Defined.

Lemma run_episodes_one_reset_each_witness :
  ∃ tr sim',
    @run_episodes (Demo.world Demo.all_files) 2 Demo.scenarioAB
      Demo.missions_AB 2 (Demo.sim0 tenth) Demo.rng0 10
    = (tr, inr (Some sim'))
    ∧ Further.resets tr = 2%nat.
Proof.
  destruct (@run_episodes (Demo.world Demo.all_files) 2 Demo.scenarioAB
              Demo.missions_AB 2 (Demo.sim0 tenth) Demo.rng0 10)
    as [tr [e|[sim'|]]] eqn:E.
  - did_not_raise E.
  - exists tr, sim'. split; [reflexivity|].
    destruct (@run_episodes_one_reset_each (Demo.world Demo.all_files) 2
                Demo.scenarioAB Demo.missions_AB 2 (Demo.sim0 tenth)
                Demo.rng0 10) as [H _].
    exact (H tr sim' E).
  - did_not_run_out E.
Defined.

Lemma assign_slots_names_agents_witness :
  ∃ slots,
    @assign_slots (Demo.world Demo.all_files) Demo.missions_AB {[ "A"; "B" ]}
    = ([], inr slots)
    ∧ agent_interfaces slots = ["ego-agent-IL-A"; "ego-agent-IL-B"].
Proof.
  destruct (@assign_slots_names_agents (Demo.world Demo.all_files)
              Demo.missions_AB {[ "A"; "B" ]}) as [H _].
  destruct H as (slots & Hrun & Hids & _).
  - intros v [Hv|Hv]%elem_of_union; apply elem_of_singleton in Hv; subst v;
      eexists; vm_compute; reflexivity.
  - exists slots. split; [exact Hrun|]. rewrite Hids. reflexivity.
Defined.

Lemma build_crew_load_failure_witness :
  outcome (@build_crew (Demo.world Cases.only_A) Demo.scenarioAB tenth
             Demo.missions_AB Cases.slotsAB (dec 5 1))
  = inl (FileNotFoundError (datafile_of Demo.scenarioAB "B"))
  ∧ outcome (@build_crew (Demo.world Demo.truncated_files) Demo.scenarioAB tenth
               Demo.missions_AB Cases.slotsAB (dec 5 1))
    = inl EOFError.
Proof.
  assert (Hm : ∀ a, a ∈ agent_interfaces Cases.slotsAB -> ∃ v m,
             agentid_to_vehid Cases.slotsAB !! a = Some v
             ∧ Demo.missions_AB !! v = Some m).
  { intros a [->|[->|[]%elem_of_nil]%elem_of_cons]%elem_of_cons.
    - exists "A", (Mission.mk "A" 0). split; vm_compute; reflexivity.
    - exists "B", (Mission.mk "B" (dec 5 1)). split; vm_compute; reflexivity. }
  split.
  - destruct (@build_crew_load_failure (Demo.world Cases.only_A) Demo.scenarioAB
                tenth Demo.missions_AB Cases.slotsAB (dec 5 1)) as [_ H].
    destruct (H Hm) as (a & v & e & Ha & Hv & He & Hrun).
    { exists "ego-agent-IL-B", "B",
        (FileNotFoundError (datafile_of Demo.scenarioAB "B")).
      split; [right; left|]. split; vm_compute; reflexivity. }
    rewrite Hrun.
    apply elem_of_cons in Ha as [->|[->|[]%elem_of_nil]%elem_of_cons];
      vm_compute in Hv; injection Hv as <-; vm_compute in He;
      [discriminate He|]. injection He as <-. vm_compute. reflexivity.
  - destruct (@build_crew_load_failure (Demo.world Demo.truncated_files)
                Demo.scenarioAB tenth Demo.missions_AB Cases.slotsAB (dec 5 1))
      as [_ H].
    destruct (H Hm) as (a & v & e & Ha & Hv & He & Hrun).
    { exists "ego-agent-IL-B", "B", EOFError.
      split; [right; left|]. split; vm_compute; reflexivity. }
    rewrite Hrun.
    apply elem_of_cons in Ha as [->|[->|[]%elem_of_nil]%elem_of_cons];
      vm_compute in Hv; injection Hv as <-; vm_compute in He;
      [discriminate He|]. injection He as <-. reflexivity.
Defined.

Lemma select_sample_failures_witness :
  outcome (select_sample (Scenario.traffic_history Demo.scenarioAB) 3
             Demo.missions_AB Demo.rng0) = inl ValueError.
Proof.
  destruct (select_sample_failures (Scenario.traffic_history Demo.scenarioAB) 3
              Demo.missions_AB Demo.rng0) as (_ & H & _).
  apply H.
  - left. discriminate.
  - vm_compute. lia.
Defined.
